(** * kiwiidb/rag: ingestion dedup, history composition and response
      normalisation

    A shallow embedding of the core of the repository:
    - [cmd/cao-uploader/main.go]: the ingestion loop of [main];
    - [filesearch/service.go]: [ListDocuments], [UploadDocumentWithURL],
      [PromptWithHistory] and [parseResponse];
    - [filesearch/handler.go]: the response assembly of [Handler.Query].

    Go strings are byte strings and are modelled by [string]; a Go
    [map[string]bool] is a [gmap string bool] read with the zero value
    [false] on a missing key; a pointer that may be nil is an [option]; a
    nil pointer dereference is the outcome [None] of a function in the
    option monad. *)

From Stdlib Require Import Ascii String.
From stdpp Require Import base option list strings gmap pretty.

#[local] Set Warnings "-clear-no-such-hyp".

Local Open Scope string_scope.
Local Open Scope list_scope.

(** ** The Go library functions the code calls *)

Module gostd.

(** [os.IsPathSeparator] on Unix. *)
Definition IsPathSeparator (c : ascii) : bool := bool_decide (c = "/"%char).

(** The loop
    [for len(path) > 0 && os.IsPathSeparator(path[len(path)-1])
       { path = path[0 : len(path)-1] }]
    of [filepath.Base], run on the reversed path. *)
Fixpoint strip_leading (p : list ascii) : list ascii :=
  match p with
  | c :: p' => if IsPathSeparator c then strip_leading p' else p
  | [] => []
  end.

(** The loop [for i >= 0 && !os.IsPathSeparator(path[i]) { i-- }] followed
    by [path = path[i+1:]], run on the reversed path: the bytes in front of
    the first separator. *)
Fixpoint until_separator (p : list ascii) : list ascii :=
  match p with
  | c :: p' => if IsPathSeparator c then [] else c :: until_separator p'
  | [] => []
  end.

(** [filepath.Base] of Go's [path/filepath] on Unix, where the volume name
    is always empty. *)
Definition Base (path : string) : string :=
  if bool_decide (path = "") then "."
  else
    let stripped := strip_leading (reverse (list_ascii_of_string path)) in
    let last := string_of_list_ascii (reverse (until_separator stripped)) in
    if bool_decide (last = "") then "/" else last.

(** The verb [%d] of [fmt.Sprintf] on a non-negative [int]. *)
Definition fmt_d (n : nat) : string := pretty n.

End gostd.

(** ** The remote file search store *)

Module remote.

(** One document of the remote file search store, as far as the gateway
    reads it: its display name and its custom metadata entries
    (key, string value). *)
Record Document := mkDocument {
  DisplayName : string;
  CustomMetadata : list (string * string)
}.

(** A store is the sequence of its documents; the service accepts several
    documents of one display name. *)
Definition Store := list Document.

End remote.



(** ** The response types of the generation client (package [genai]) *)

Module genai.

Record Part := mkPart { Text : string }.

Record Content := mkContent { Parts : list (option Part) }.

(** [StartIndex] and [EndIndex] are [int32]. *)
Record Citation := mkCitation {
  StartIndex : Z;
  EndIndex : Z;
  Title : string;
  URI : string
}.

Record CitationMetadata := mkCitationMetadata {
  Citations : list (option Citation)
}.

Record GroundingChunkWeb := mkGroundingChunkWeb {
  Web_URI : string;
  Web_Title : string
}.

Record GroundingChunkRetrievedContext := mkGroundingChunkRetrievedContext {
  RetrievedContext_URI : string;
  RetrievedContext_Title : string
}.

Record GroundingChunk := mkGroundingChunk {
  Web : option GroundingChunkWeb;
  RetrievedContext : option GroundingChunkRetrievedContext
}.

Record GroundingMetadata := mkGroundingMetadata {
  GroundingChunks : list (option GroundingChunk);
  WebSearchQueries : list string
}.

Record Candidate := mkCandidate {
  Content_ : option Content;
  CitationMetadata_ : option CitationMetadata;
  GroundingMetadata_ : option GroundingMetadata
}.

Record GenerateContentResponse := mkGenerateContentResponse {
  Candidates : list (option Candidate)
}.

End genai.

(** ** Package [filesearch]: service.go and handler.go *)

Module filesearch.

(** [Document] of service.go; the resource name and the two rendered
    time stamps are not read by any caller modelled here. *)
Record Document := mkDocument {
  DisplayName : string;
  CustomMetadata : gmap string string
}.

(** The body of the loop of [ListDocuments]: the metadata entries are
    written into a fresh map, a later entry of a key overwriting an
    earlier one. *)
Definition convert_document (doc : remote.Document) : Document :=
  {| DisplayName := remote.DisplayName doc;
     CustomMetadata :=
       foldl (λ metadata cm, <[cm.1 := cm.2]> metadata) ∅
             (remote.CustomMetadata doc) |}.

(** [ListDocuments]: [None] is the error return of the remote listing
    call, whose success is decided by [list_ok]. The function reads
    [docList.Items], the items of the first page of the listing, and asks
    for no further page: of the documents of the store it returns the
    first [pageSize], the size of a page of the service. *)
Definition ListDocuments (list_ok : bool) (pageSize : nat) (store : remote.Store)
  : option (list Document) :=
  if list_ok then Some (convert_document <$> take pageSize store) else None.

(** The configuration [UploadDocumentWithURL] builds, as the document the
    store holds after a successful upload. *)
Definition uploaded_document (fileName sourceURL : string) : remote.Document :=
  {| remote.DisplayName := fileName;
     remote.CustomMetadata :=
       if bool_decide (sourceURL = "") then []
       else [("source_url", sourceURL)] |}.

Record Source := mkSource { Source_Title : string; Source_URI : string }.

Record Citation := mkCitation {
  StartIndex : Z;
  EndIndex : Z;
  Sources : list Source
}.

Record WebGroundingChunk := mkWebGroundingChunk {
  Web_URI : string;
  Web_Title : string
}.

Record FileGroundingChunk := mkFileGroundingChunk {
  FileName : string;
  File_URI : string
}.

Record GroundingChunk := mkGroundingChunk {
  Web : option WebGroundingChunk;
  File : option FileGroundingChunk
}.

Record GroundingSupport := mkGroundingSupport {
  GroundingChunks : list GroundingChunk;
  WebSearchQueries : list string
}.

Record PromptResponse := mkPromptResponse {
  Parts : list string;
  Citations : list Citation;
  GroundingSupport_ : option GroundingSupport
}.

(** [HistoryMessage] of handler.go. *)
Record HistoryMessage := mkHistoryMessage { Role : string; Content : string }.

(** The values an [interface{}] holds here: the nil interface, a string,
    a [[]HistoryMessage], a [[]interface{}] and a [map[string]interface{}]
    (its entries, of distinct keys). *)
#[warning="-register-all"] Inductive any :=
| Nil
| Str (s : string)
| HistoryMessages (h : list HistoryMessage)
| Slice (l : list any)
| Map (m : list (string * any)).

(** [msgMap[key]]: the nil interface when the key is missing. *)
Fixpoint index (m : list (string * any)) (key : string) : any :=
  match m with
  | [] => Nil
  | (k, v) :: m' => if bool_decide (k = key) then v else index m' key
  end.

Definition newline : string := String (ascii_of_nat 10) "".

(** Insertion of an entry into the entries sorted by key, for the
    printing of a map in key order. *)
Fixpoint insert_entry (e : string * string) (es : list (string * string))
  : list (string * string) :=
  match es with
  | [] => [e]
  | e' :: es' =>
    if String.leb e.1 e'.1 then e :: es else e' :: insert_entry e es'
  end.

(** The verb [%s] of package [fmt] on an operand below the top level. *)
Fixpoint printValue (v : any) : string :=
  match v with
  | Nil => "<nil>"
  | Str s => s
  | HistoryMessages h =>
    "[" +:+ String.concat " "
              (map (λ msg, "{" +:+ Role msg +:+ " " +:+ Content msg +:+ "}") h)
        +:+ "]"
  | Slice l => "[" +:+ String.concat " " (map printValue l) +:+ "]"
  | Map m =>
    "map[" +:+ String.concat " "
                 (map (λ e, e.1 +:+ ":" +:+ e.2)
                      (foldr insert_entry []
                             (map (λ e, (e.1, printValue e.2)) m)))
           +:+ "]"
  end.

(** The verb [%s] on an operand of [fmt.Sprintf]. *)
Definition fmt_s (v : any) : string :=
  match v with
  | Nil => "%!s(<nil>)"
  | _ => printValue v
  end.

(** Lines 262-268 of [PromptWithHistory]: an element that is no
    [map[string]interface{}] adds nothing. *)
Definition add_message (contextStr : string) (msg : any) : string :=
  match msg with
  | Map msgMap =>
    let role := index msgMap "role" in
    let content := index msgMap "content" in
    contextStr +:+ (fmt_s role +:+ ": " +:+ fmt_s content +:+ newline)
  | _ => contextStr
  end.

(** Lines 257-271 of [PromptWithHistory]: the prompt handed to
    [GenerateContent]. *)
Definition fullPrompt (prompt : string) (history : any) : string :=
  match history with
  | Slice historySlice =>
    if bool_decide (0 < length historySlice) then
      let contextStr :=
        foldl add_message ("Previous conversation:" +:+ newline) historySlice in
      contextStr +:+ (newline +:+ "Current question: ") +:+ prompt
    else prompt
  | _ => prompt
  end.

(** *** [parseResponse]

    The function walks pointers of the response without a nil check at the
    candidate, its content, the part, the citation and the chunk; [None] is
    the run-time panic of such a dereference. *)

(** The conversion [int(x)] of an [int32]: the value is kept. *)
Definition int_of_int32 (x : Z) : Z := x.

(** Lines 296-300: the text parts of one candidate, appended to [Parts]. *)
Fixpoint append_parts (Parts0 : list string) (parts : list (option genai.Part))
  : option (list string) :=
  match parts with
  | [] => Some Parts0
  | part :: parts' =>
    part ← part;
    append_parts
      (if bool_decide (genai.Text part ≠ "") then Parts0 ++ [genai.Text part]
       else Parts0)
      parts'
  end.

(** Lines 305-317: the citation built of one raw entry. *)
Definition convert_citation (citation : genai.Citation) : Citation :=
  let c := {| StartIndex := int_of_int32 (genai.StartIndex citation);
              EndIndex := int_of_int32 (genai.EndIndex citation);
              Sources := [] |} in
  if bool_decide (genai.URI citation ≠ "") then
    {| StartIndex := StartIndex c;
       EndIndex := EndIndex c;
       Sources := Sources c ++ [ {| Source_Title := genai.Title citation;
                                    Source_URI := genai.URI citation |} ] |}
  else c.

(** Lines 304-320: the citations of one candidate, appended to
    [Citations]. *)
Fixpoint append_citations (Citations0 : list Citation)
    (citations : list (option genai.Citation)) : option (list Citation) :=
  match citations with
  | [] => Some Citations0
  | citation :: citations' =>
    citation ← citation;
    append_citations (Citations0 ++ [convert_citation citation]) citations'
  end.

(** Lines 331-345: the chunk built of one raw chunk; the two tests are
    independent of each other. *)
Definition convert_chunk (chunk : genai.GroundingChunk) : GroundingChunk :=
  let gc := {| Web := None; File := None |} in
  let gc :=
    match genai.Web chunk with
    | Some web =>
      {| Web := Some {| Web_URI := genai.Web_URI web;
                        Web_Title := genai.Web_Title web |};
         File := File gc |}
    | None => gc
    end in
  match genai.RetrievedContext chunk with
  | Some rc =>
    if bool_decide (genai.RetrievedContext_URI rc ≠ "") then
      {| Web := Web gc;
         File := Some {| FileName := genai.RetrievedContext_Title rc;
                         File_URI := genai.RetrievedContext_URI rc |} |}
    else gc
  | None => gc
  end.

(** Lines 330-348: the chunks of one candidate, appended to the chunks of
    the grounding support. *)
Fixpoint append_chunks (chunks0 : list GroundingChunk)
    (chunks : list (option genai.GroundingChunk)) : option (list GroundingChunk) :=
  match chunks with
  | [] => Some chunks0
  | chunk :: chunks' =>
    chunk ← chunk;
    append_chunks (chunks0 ++ [convert_chunk chunk]) chunks'
  end.

(** Lines 294-350: the body of the loop over the candidates. *)
Definition parse_candidate (response : PromptResponse)
    (cand : option genai.Candidate) : option PromptResponse :=
  cand ← cand;
  content ← genai.Content_ cand;
  parts ← append_parts (Parts response) (genai.Parts content);
  citations ←
    match genai.CitationMetadata_ cand with
    | Some cm =>
      if bool_decide (0 < length (genai.Citations cm))
      then append_citations (Citations response) (genai.Citations cm)
      else Some (Citations response)
    | None => Some (Citations response)
    end;
  support ←
    match genai.GroundingMetadata_ cand with
    | Some gm =>
      chunks ← append_chunks [] (genai.GroundingChunks gm);
      Some (Some {| GroundingChunks := chunks;
                    WebSearchQueries := genai.WebSearchQueries gm |})
    | None => Some (GroundingSupport_ response)
    end;
  Some {| Parts := parts; Citations := citations; GroundingSupport_ := support |}.

Fixpoint parse_candidates (response : PromptResponse)
    (cands : list (option genai.Candidate)) : option PromptResponse :=
  match cands with
  | [] => Some response
  | cand :: cands' =>
    response' ← parse_candidate response cand;
    parse_candidates response' cands'
  end.

(** [parseResponse] of service.go. *)
Definition parseResponse (resp : genai.GenerateContentResponse)
  : option PromptResponse :=
  parse_candidates {| Parts := []; Citations := []; GroundingSupport_ := None |}
                   (genai.Candidates resp).

(** *** The service calls of a query *)

Record Store := mkStore { Store_Name : string; Store_DisplayName : string }.

(** The errors the service returns, each with the message of its cause. *)
Inductive error :=
| ListStoresFailed (cause : string)
| StoreNotFound (displayName : string)
| GenerateContentFailed (cause : string).

(** What a call yields: its result, its error, or a run-time panic. *)
Inductive outcome (A : Type) :=
| Returned (a : A)
| Failed (err : error)
| Panicked.
Arguments Returned {A} a.
Arguments Failed {A} err.
Arguments Panicked {A}.

(** The service with its client: the model name, what the listing of the
    stores yields and what [Models.GenerateContent] yields for a model, a
    prompt and the store names of the file search tool (on the left the
    response, on the right the message of the error). *)
Record Service := mkService {
  modelName : string;
  FileSearchStores_List : list Store + string;
  GenerateContent : string → string → list string → genai.GenerateContentResponse + string
}.

Definition ListStores (s : Service) : outcome (list Store) :=
  match FileSearchStores_List s with
  | inl stores => Returned stores
  | inr cause => Failed (ListStoresFailed cause)
  end.

Fixpoint find_store (stores : list Store) (displayName : string) : outcome Store :=
  match stores with
  | [] => Failed (StoreNotFound displayName)
  | store :: stores' =>
    if bool_decide (Store_DisplayName store = displayName) then Returned store
    else find_store stores' displayName
  end.

Definition GetStoreByName (s : Service) (displayName : string) : outcome Store :=
  match ListStores s with
  | Returned stores => find_store stores displayName
  | Failed err => Failed err
  | Panicked => Panicked
  end.

(** The call of the client and [parseResponse], shared by [Prompt] and
    [PromptWithHistory]. *)
Definition generate (s : Service) (fullPrompt storeName : string)
  : outcome PromptResponse :=
  match GenerateContent s (modelName s) fullPrompt [storeName] with
  | inr cause => Failed (GenerateContentFailed cause)
  | inl resp =>
    match parseResponse resp with
    | Some response => Returned response
    | None => Panicked
    end
  end.

Definition Prompt (s : Service) (prompt storeName : string) : outcome PromptResponse :=
  generate s prompt storeName.

Definition PromptWithHistory (s : Service) (prompt storeName : string)
    (history : any) : outcome PromptResponse :=
  generate s (fullPrompt prompt history) storeName.

(** *** handler.go *)

Record QueryRequest := mkQueryRequest {
  Query_ : string;
  StoreName : string;
  History : list HistoryMessage
}.

Record SourceDocument := mkSourceDocument {
  SourceDocument_FileName : string;
  SourceDocument_URI : string
}.

(** [QueryResponse] on the path of success, where its [Error] is empty. *)
Record QueryResponse := mkQueryResponse {
  Answer : string;
  QueryResponse_Sources : list SourceDocument;
  QueryResponse_Citations : list Citation;
  QueryResponse_GroundingSupport : option GroundingSupport
}.

(** Lines 112-114: the answer parts, joined. *)
Definition combine_parts (parts : list string) : string :=
  foldl (λ answer part, answer +:+ part) "" parts.

(** [seenSources[name]] *)
Definition seen (seenSources : gmap string bool) (name : string) : bool :=
  default false (seenSources !! name).

(** Lines 119-127: the loop over the grounding chunks, with the map of the
    names seen and the sources appended so far. *)
Fixpoint collect_sources (seenSources : gmap string bool)
    (sources : list SourceDocument) (chunks : list GroundingChunk)
  : list SourceDocument :=
  match chunks with
  | [] => sources
  | chunk :: chunks' =>
    match File chunk with
    | Some file =>
      if negb (seen seenSources (FileName file)) then
        collect_sources (<[FileName file := true]> seenSources)
          (sources ++ [ {| SourceDocument_FileName := FileName file;
                           SourceDocument_URI := File_URI file |} ])
          chunks'
      else collect_sources seenSources sources chunks'
    | None => collect_sources seenSources sources chunks'
    end
  end.

(** Lines 116-128. *)
Definition unique_sources (support : option GroundingSupport) : list SourceDocument :=
  match support with
  | Some gs => collect_sources ∅ [] (GroundingChunks gs)
  | None => []
  end.

(** Lines 105-128: the response built of the result of the service. *)
Definition build_response (resp : PromptResponse) : QueryResponse :=
  {| Answer := combine_parts (Parts resp);
     QueryResponse_Sources := unique_sources (GroundingSupport_ resp);
     QueryResponse_Citations := Citations resp;
     QueryResponse_GroundingSupport := GroundingSupport_ resp |}.

(** What the handler writes: a plain-text refusal of the method, a JSON
    error of a status with the text in front of the cause, or the JSON
    response of status 200; a panic aborts the request. *)
Inductive Reply :=
| MethodNotAllowed
| Invalid (status : nat) (message : string)
| Unsuccessful (status : nat) (message : string) (cause : error)
| Success (response : QueryResponse)
| Aborted.

(** [Handler.Query] on a request of method [method] whose body decodes to
    [body] (on the right the message of the decoder's error). The history
    of the request goes to [PromptWithHistory] as a [[]HistoryMessage]. *)
Definition Query (s : Service) (method : string) (body : QueryRequest + string)
  : Reply :=
  if bool_decide (method ≠ "POST") then MethodNotAllowed
  else
    match body with
    | inr err => Invalid 400 ("Invalid request body: " +:+ err)
    | inl req =>
      if bool_decide (Query_ req = "") then Invalid 400 "Query is required"
      else if bool_decide (StoreName req = "") then Invalid 400 "StoreName is required"
      else
        match GetStoreByName s (StoreName req) with
        | Failed err => Unsuccessful 404 "Store not found: " err
        | Panicked => Aborted
        | Returned store =>
          match PromptWithHistory s (Query_ req) (Store_Name store)
                                  (HistoryMessages (History req)) with
          | Failed err => Unsuccessful 500 "Failed to execute query: " err
          | Panicked => Aborted
          | Returned resp => Success (build_response resp)
          end
        end
    end.

End filesearch.

(** ** [cmd/cao-uploader/main.go]: the ingestion loop *)

Module uploader.

(** What one run does at its collaborators, in order; [i] is the 0-based
    position of the candidate. *)
Inductive Event :=
| Download (i : nat) (url : string)
| Upload (i : nat) (fileName url : string).

Definition event_index (e : Event) : nat :=
  match e with Download i _ | Upload i _ _ => i end.

(** The collaborators of one run: whether the listing call succeeds and
    how many documents the service returns in a page, what
    [scraper.DownloadDocument] returns for the candidate at position [i]
    ([None] is its error) and whether the upload of that candidate
    succeeds. *)
Record World := mkWorld {
  list_ok : bool;
  page_size : nat;
  download : nat → string → option string;
  upload_ok : nat → string → bool
}.

Record State := mkState {
  uploadedCount : nat;
  skippedCount : nat;
  store : remote.Store;
  trace : list Event
}.

(** [fmt.Sprintf("document_%d.pdf", n)] *)
Definition Sprintf_document (n : nat) : string :=
  "document_" +:+ gostd.fmt_d n +:+ ".pdf".

(** Lines 80-83: the display name of the candidate at 0-based position
    [i]. *)
Definition fileName_of (i : nat) (url : string) : string :=
  let fileName := gostd.Base url in
  if bool_decide (fileName = "") || bool_decide (fileName = ".")
  then Sprintf_document (i + 1)
  else fileName.

(** [existingFiles[fileName]] *)
Definition known (existingFiles : gmap string bool) (fileName : string) : bool :=
  default false (existingFiles !! fileName).

(** Lines 79-108: the body of the loop, for the candidate [url] at
    position [i]. *)
Definition upload_one (w : World) (existingFiles : gmap string bool)
    (i : nat) (url : string) (st : State) : State :=
  let fileName := fileName_of i url in
  if known existingFiles fileName then
    {| uploadedCount := uploadedCount st;
       skippedCount := skippedCount st + 1;
       store := store st;
       trace := trace st |}
  else
    match download w i url with
    | None =>
      {| uploadedCount := uploadedCount st;
         skippedCount := skippedCount st;
         store := store st;
         trace := trace st ++ [Download i url] |}
    | Some reader =>
      if upload_ok w i fileName then
        {| uploadedCount := uploadedCount st + 1;
           skippedCount := skippedCount st;
           store := store st ++ [filesearch.uploaded_document fileName url];
           trace := trace st ++ [Download i url; Upload i fileName url] |}
      else
        {| uploadedCount := uploadedCount st;
           skippedCount := skippedCount st;
           store := store st;
           trace := trace st ++ [Download i url; Upload i fileName url] |}
    end.

(** Lines 78-109: the loop over the candidates, from position [i] on. *)
Fixpoint upload_loop (w : World) (existingFiles : gmap string bool)
    (i : nat) (urls : list string) (st : State) : State :=
  match urls with
  | [] => st
  | url :: urls' =>
    upload_loop w existingFiles (S i) urls' (upload_one w existingFiles i url st)
  end.

(** Lines 62-67: the listing step, an error of which leaves the empty
    list. *)
Definition existingDocs (w : World) (s : remote.Store) : list filesearch.Document :=
  match filesearch.ListDocuments (list_ok w) (page_size w) s with
  | Some docs => docs
  | None => []
  end.

(** Lines 69-72. *)
Definition existingFiles_of (docs : list filesearch.Document) : gmap string bool :=
  foldl (λ m doc, <[filesearch.DisplayName doc := true]> m) ∅ docs.

(** Lines 62-111 of [main]: one ingestion run of the candidates [urls]
    against the store [s]. *)
Definition ingest (w : World) (s : remote.Store) (urls : list string) : State :=
  upload_loop w (existingFiles_of (existingDocs w s)) 0 urls
    {| uploadedCount := 0; skippedCount := 0; store := s; trace := [] |}.

(** The display names uploaded during a run: the uploads that the store
    accepted. *)
Definition accepted (w : World) (e : Event) : option string :=
  match e with
  | Upload i fileName _ => if upload_ok w i fileName then Some fileName else None
  | Download _ _ => None
  end.

Definition uploaded_names (w : World) (tr : list Event) : list string :=
  omap (accepted w) tr.

End uploader.

(** ** [caoscrape/scraper.go]: the document source *)

Module caoscrape.

Definition baseURL : string := "https://public-search.werk.belgie.be".
Definition apiPrefix : string := "/website-service/joint-work-convention".
Definition searchURL : string := baseURL +:+ apiPrefix +:+ "/search".
Definition documentBase : string := baseURL +:+ apiPrefix.

Record SearchResult := mkSearchResult { DocumentLink : string }.

(** What the HTTP client yields for a request: its error, or a response
    of a status code with a body. *)
Inductive Reply (Body : Type) :=
| NoReply (cause : string)
| Replied (StatusCode : Z) (body : Body).
Arguments NoReply {Body} cause.
Arguments Replied {Body} StatusCode body.

Inductive SearchError :=
| ExecuteFailed (cause : string)
| UnexpectedStatus (StatusCode : Z)
| DecodeFailed (cause : string).

(** Lines 153-157: the link with a leading slash, behind the document
    base. The link is not empty here (line 150). *)
Definition fullURL (link : string) : string :=
  let link :=
    match link with
    | String c _ => if bool_decide (c ≠ "/"%char) then "/" +:+ link else link
    | "" => link
    end in
  documentBase +:+ link.

(** Lines 149-160: the body of the loop over the results. *)
Definition add_result (documentURLs : list string) (result : SearchResult)
  : list string :=
  if bool_decide (DocumentLink result ≠ "")
  then documentURLs ++ [fullURL (DocumentLink result)]
  else documentURLs.

(** [Search]: [Do] is the HTTP client on the search request of the joint
    committee number [jc]; the body of its response is the list of results
    it decodes to, or the error of the decoder. *)
Definition Search (Do : option Z → Reply (list SearchResult + string))
    (jc : option Z) : list string + SearchError :=
  match Do jc with
  | NoReply cause => inr (ExecuteFailed cause)
  | Replied StatusCode body =>
    if bool_decide (StatusCode ≠ 200%Z) then inr (UnexpectedStatus StatusCode)
    else
      match body with
      | inr cause => inr (DecodeFailed cause)
      | inl results => inl (foldl add_result [] results)
      end
  end.

Inductive DownloadError :=
| DownloadFailed (cause : string)
| DownloadStatus (StatusCode : Z)
| ReadFailed (cause : string).

(** [DownloadDocument]: [Get] is the HTTP client on a GET of the URL; the
    body of its response is its bytes, or the error of reading it. *)
Definition DownloadDocument (Get : string → Reply (string + string))
    (url : string) : string + DownloadError :=
  match Get url with
  | NoReply cause => inr (DownloadFailed cause)
  | Replied StatusCode body =>
    if bool_decide (StatusCode ≠ 200%Z) then inr (DownloadStatus StatusCode)
    else
      match body with
      | inr cause => inr (ReadFailed cause)
      | inl data => inl data
      end
  end.

End caoscrape.

(** ** The commands: [cmd/cao-uploader/main.go] from line 32 on and the
       output of the querier *)

Module cmd.

Import filesearch uploader.

(** How lines 36-47 of the uploader end: with a store, with the
    [log.Fatalf] on the error of [CreateStore], or in a panic. *)
Inductive Started :=
| Ready (store : Store)
| CreateFailed (cause : string)
| Crashed.

(** Lines 36-47 of the uploader: the store of the display name, created
    when [GetStoreByName] returns an error; [create] is [CreateStore], on
    the right the message of its error. *)
Definition get_or_create (s : Service) (create : string → Store + string)
    (storeName : string) : Started :=
  match GetStoreByName s storeName with
  | Returned store => Ready store
  | Failed _ =>
    match create storeName with
    | inl store => Ready store
    | inr cause => CreateFailed cause
    end
  | Panicked => Crashed
  end.

(** How the uploader ends: with [log.Fatalf] on the store or on the search,
    in a panic, or after the loop with the store it used and the state of
    the run. *)
Inductive Exit :=
| FatalStore (cause : string)
| FatalSearch (err : caoscrape.SearchError)
| Panic
| Finished (store : Store) (st : State).

(** The world of a run whose downloads go through [DownloadDocument]. *)
Definition world_of (list_ok : bool) (page_size : nat)
    (Get : string → caoscrape.Reply (string + string))
    (upload_ok : nat → string → bool) : World :=
  {| list_ok := list_ok;
     page_size := page_size;
     download := λ _ url,
       match caoscrape.DownloadDocument Get url with
       | inl data => Some data
       | inr _ => None
       end;
     upload_ok := upload_ok |}.

(** Lines 32-111 of the uploader: [documents] gives the documents of the
    store of a resource name. *)
Definition uploader_main (s : Service) (create : string → Store + string)
    (Do : option Z → caoscrape.Reply (list caoscrape.SearchResult + string))
    (w : World) (documents : string → remote.Store) : Exit :=
  match get_or_create s create "cao-documents" with
  | Ready store =>
    match caoscrape.Search Do (Some 3180200%Z) with
    | inr err => FatalSearch err
    | inl urls => Finished store (ingest w (documents (Store_Name store)) urls)
    end
  | CreateFailed cause => FatalStore cause
  | Crashed => Panic
  end.

(** The querier, lines 138-144 of its [main]: the lines printed for the
    sources, with the map of the names seen and the count so far. *)
Fixpoint print_sources (seenFiles : gmap string bool) (sourceCount : nat)
    (chunks : list GroundingChunk) : list string :=
  match chunks with
  | [] => []
  | chunk :: chunks' =>
    match File chunk with
    | Some file =>
      if negb (seen seenFiles (FileName file)) then
        (gostd.fmt_d (sourceCount + 1) +:+ ". " +:+ FileName file +:+ newline)
        :: print_sources (<[FileName file := true]> seenFiles) (sourceCount + 1) chunks'
      else print_sources seenFiles sourceCount chunks'
    | None => print_sources seenFiles sourceCount chunks'
    end
  end.

(** The querier, lines 131-145: the header with the number of the chunks
    and the lines of the sources. *)
Definition print_grounding (support : option GroundingSupport) : list string :=
  match support with
  | Some gs =>
    if bool_decide (0 < length (GroundingChunks gs)) then
      (newline +:+ "=== Sources (" +:+ gostd.fmt_d (length (GroundingChunks gs))
               +:+ ") ===" +:+ newline)
      :: print_sources ∅ 0 (GroundingChunks gs)
    else []
  | None => []
  end.

End cmd.

Import filesearch uploader.

(** * Definitions of the statements *)

(** [s] occurs in [t]. *)
Definition substring_of (s t : string) : Prop :=
  ∃ pre post, t = pre +:+ s +:+ post.

(** [t] ends with [s]. *)
Definition ends_with (s t : string) : Prop := ∃ pre, t = pre +:+ s.

(** A turn as the element of a [[]interface{}] that [PromptWithHistory]
    looks for: a [map[string]interface{}] of the keys role and content. *)
Definition untyped (msg : HistoryMessage) : any :=
  Map [("role", Str (Role msg)); ("content", Str (Content msg))].

(** The line of a turn in the transcript. *)
Definition transcript_line (msg : HistoryMessage) : string :=
  Role msg +:+ ": " +:+ Content msg +:+ newline.

Definition transcript (history : list HistoryMessage) : string :=
  foldr (λ msg rest, transcript_line msg +:+ rest) "" history.

Definition preamble : string := "Previous conversation:" +:+ newline.

(** The file names of the chunks of the File variant, in order. *)
Definition file_names (chunks : list GroundingChunk) : list string :=
  omap (λ chunk, FileName <$> File chunk) chunks.

Definition source_of (file : FileGroundingChunk) : SourceDocument :=
  {| SourceDocument_FileName := FileName file;
     SourceDocument_URI := File_URI file |}.

(** The source that the chunk at position [i] of [chunks] contributes by
    the rule of the first occurrence: the source of its file, unless a
    chunk in front of it has a file of the same name. *)
Definition first_occurrence (chunks : list GroundingChunk) (i : nat)
    (chunk : GroundingChunk) : option SourceDocument :=
  file ← File chunk;
  if bool_decide (FileName file ∈ file_names (take i chunks)) then None
  else Some (source_of file).

Definition first_occurrences (chunks : list GroundingChunk) : list SourceDocument :=
  omap id (imap (first_occurrence chunks) chunks).

Definition source_names (sources : list SourceDocument) : list string :=
  SourceDocument_FileName <$> sources.

Definition file_chunk (name uri : string) : GroundingChunk :=
  {| Web := None; File := Some {| FileName := name; File_URI := uri |} |}.

(** *** The response of the generation, read without [parseResponse] *)

(** No element of a slice of pointers is nil. *)
Definition all_set {A : Type} (l : list (option A)) : bool :=
  forallb (λ o, bool_decide (is_Some o)) l.

(** The pointers that [parseResponse] follows without a check are set in
    the candidate: the candidate, its content, its parts, and the citations
    and the chunks of the metadata it has. *)
Definition candidate_walkable (cand : option genai.Candidate) : bool :=
  match cand with
  | Some cand =>
    match genai.Content_ cand with
    | Some content => all_set (genai.Parts content)
    | None => false
    end
    && match genai.CitationMetadata_ cand with
       | Some cm => all_set (genai.Citations cm)
       | None => true
       end
    && match genai.GroundingMetadata_ cand with
       | Some gm => all_set (genai.GroundingChunks gm)
       | None => true
       end
  | None => false
  end.

Definition walkable (resp : genai.GenerateContentResponse) : bool :=
  forallb candidate_walkable (genai.Candidates resp).

Definition candidates (resp : genai.GenerateContentResponse) : list genai.Candidate :=
  omap id (genai.Candidates resp).

(** The text of every part of a candidate, in order. *)
Definition texts_of (cand : genai.Candidate) : list string :=
  match genai.Content_ cand with
  | Some content => genai.Text <$> omap id (genai.Parts content)
  | None => []
  end.

(** The non-empty texts of the parts of all candidates, in order. *)
Definition answer_parts (resp : genai.GenerateContentResponse) : list string :=
  filter (λ text, text ≠ "") (candidates resp ≫= texts_of).

(** The strings of a list, joined in order. *)
Definition concatenation (l : list string) : string :=
  foldr (λ text rest, text +:+ rest) "" l.

Definition raw_citations_of (cand : genai.Candidate) : list genai.Citation :=
  match genai.CitationMetadata_ cand with
  | Some cm => omap id (genai.Citations cm)
  | None => []
  end.

(** The citation entries of the metadata of all candidates, in order. *)
Definition raw_citations (resp : genai.GenerateContentResponse) : list genai.Citation :=
  candidates resp ≫= raw_citations_of.


(** The grounding support of one grounding metadata. *)
Definition support_of (gm : genai.GroundingMetadata) : GroundingSupport :=
  {| GroundingChunks := convert_chunk <$> omap id (genai.GroundingChunks gm);
     WebSearchQueries := genai.WebSearchQueries gm |}.

(** The grounding metadata of the candidates that carry one, in order. *)
Definition grounded (resp : genai.GenerateContentResponse) : list genai.GroundingMetadata :=
  omap genai.GroundingMetadata_ (candidates resp).

(** The raw chunk carries web fields. *)
Definition carries_web (chunk : genai.GroundingChunk) : bool :=
  bool_decide (is_Some (genai.Web chunk)).

(** The raw chunk carries retrieved-context fields with a non-empty URI. *)
Definition carries_file (chunk : genai.GroundingChunk) : bool :=
  match genai.RetrievedContext chunk with
  | Some rc => bool_decide (genai.RetrievedContext_URI rc ≠ "")
  | None => false
  end.

(** The result of the normalisation, read off the response. *)
Definition normalized (resp : genai.GenerateContentResponse) : PromptResponse :=
  {| Parts := answer_parts resp;
     Citations := convert_citation <$> raw_citations resp;
     GroundingSupport_ := support_of <$> last (grounded resp) |}.

Definition is_web (gc : GroundingChunk) : bool := bool_decide (is_Some (Web gc)).
Definition is_file (gc : GroundingChunk) : bool := bool_decide (is_Some (File gc)).

(** *** Responses for the examples *)

Definition text_part (text : string) : option genai.Part :=
  Some {| genai.Text := text |}.

Definition file_context (name uri : string) : option genai.GroundingChunk :=
  Some {| genai.Web := None;
          genai.RetrievedContext :=
            Some {| genai.RetrievedContext_URI := uri;
                    genai.RetrievedContext_Title := name |} |}.

(** A raw chunk with web fields and with retrieved-context fields of a
    non-empty URI. *)
Definition chunk_of_both : genai.GroundingChunk :=
  {| genai.Web := Some {| genai.Web_URI := "https://w"; genai.Web_Title := "w" |};
     genai.RetrievedContext :=
       Some {| genai.RetrievedContext_URI := "files/f";
               genai.RetrievedContext_Title := "f.pdf" |} |}.

(** A raw chunk without web fields whose retrieved-context fields have an
    empty URI. *)
Definition chunk_of_neither : genai.GroundingChunk :=
  {| genai.Web := None;
     genai.RetrievedContext :=
       Some {| genai.RetrievedContext_URI := "";
               genai.RetrievedContext_Title := "f.pdf" |} |}.

(** A candidate without content, without citation metadata and without
    grounding metadata. *)
Definition candidate_without_content : genai.Candidate :=
  {| genai.Content_ := None;
     genai.CitationMetadata_ := None;
     genai.GroundingMetadata_ := None |}.

Definition metadata_A : genai.GroundingMetadata :=
  {| genai.GroundingChunks := [file_context "fileA" "a"];
     genai.WebSearchQueries := ["first"] |}.

Definition metadata_B : genai.GroundingMetadata :=
  {| genai.GroundingChunks := [file_context "fileB" "b"];
     genai.WebSearchQueries := ["second"] |}.

(** Two candidates, each with text, the first with a citation without URI,
    both with grounding metadata; a third candidate has text only. *)
Definition response_of_three : genai.GenerateContentResponse :=
  {| genai.Candidates :=
       [ Some {| genai.Content_ :=
                   Some {| genai.Parts := [text_part "a"; text_part ""; text_part "b"] |};
                 genai.CitationMetadata_ :=
                   Some {| genai.Citations :=
                             [ Some {| genai.StartIndex := 10; genai.EndIndex := 25;
                                       genai.Title := ""; genai.URI := "" |} ] |};
                 genai.GroundingMetadata_ := Some metadata_A |};
         Some {| genai.Content_ := Some {| genai.Parts := [text_part "c"] |};
                 genai.CitationMetadata_ := None;
                 genai.GroundingMetadata_ := Some metadata_B |};
         Some {| genai.Content_ := Some {| genai.Parts := [text_part "d"] |};
                 genai.CitationMetadata_ := None;
                 genai.GroundingMetadata_ := None |} ] |}.

(** *** Ingestion runs *)

(** The display names of the candidates of a batch, by position. *)
Definition candidate_names (urls : list string) : list string :=
  imap fileName_of urls.

(** The display names of the documents of a store. *)
Definition store_names (s : remote.Store) : list string :=
  remote.DisplayName <$> s.

(** The display names that the listing step of a run returns. *)
Definition existing_names (w : World) (s : remote.Store) : list string :=
  filesearch.DisplayName <$> existingDocs w s.

(** A world in which nothing fails. *)
Definition world_ok : World :=
  {| list_ok := true;
     page_size := 10;
     download := λ _ _, Some "%PDF";
     upload_ok := λ _ _, true |}.

(** A world in which the download of the candidate at position 1 fails. *)
Definition world_second_download_fails : World :=
  {| list_ok := true;
     page_size := 10;
     download := λ i _, if bool_decide (i = 1) then None else Some "%PDF";
     upload_ok := λ _ _, true |}.

Definition batch : list string := ["https://x/a.pdf"; "https://x/"; ""].

(** A store that holds a document of the display name a.pdf. *)
Definition store_of_a : remote.Store :=
  [ {| remote.DisplayName := "a.pdf"; remote.CustomMetadata := [] |} ].

(** *** Further notions of runs *)

Definition is_download (e : Event) : bool :=
  match e with Download _ _ => true | Upload _ _ _ => false end.

(** No download and no upload of the world fails. *)
Definition failure_free (w : World) : Prop :=
  (∀ i url, is_Some (download w i url)) ∧ (∀ i name, upload_ok w i name = true).

(** [s] is at the front of [t]. *)
Definition starts_with (s t : string) : Prop := ∃ rest, t = s +:+ rest.

(** Every upload of a trace stands directly behind the download of the
    same candidate. *)
Definition uploads_follow_downloads (tr : list Event) : Prop :=
  ∀ n i name url,
    tr !! n = Some (Upload i name url) →
    ∃ m, n = S m ∧ tr !! m = Some (Download i url).

(** No byte of the string is a slash. *)
Definition slash_free (s : string) : Prop :=
  Forall (λ c, c ≠ "/"%char) (list_ascii_of_string s).

(** Eleven candidates of eleven display names. *)
Definition batch_of_eleven : list string :=
  [ "https://x/1.pdf"; "https://x/2.pdf"; "https://x/3.pdf"; "https://x/4.pdf";
    "https://x/5.pdf"; "https://x/6.pdf"; "https://x/7.pdf"; "https://x/8.pdf";
    "https://x/9.pdf"; "https://x/10.pdf"; "https://x/11.pdf" ].

(** Two candidates of one display name. *)
Definition batch_of_twins : list string := ["https://x/a.pdf"; "https://y/a.pdf"].

(** A world whose listing call fails. *)
Definition world_without_listing : World :=
  {| list_ok := false;
     page_size := 10;
     download := λ _ _, Some "%PDF";
     upload_ok := λ _ _, true |}.

(** The metadata entries of a key, in order. *)
Definition entries_of (key : string) (doc : remote.Document) : list (string * string) :=
  filter (λ cm, cm.1 = key) (remote.CustomMetadata doc).

(** *** Examples of the document source and of the stores *)

(** A search that answers with three results, the second without link. *)
Definition Do_three (jc : option Z)
  : caoscrape.Reply (list caoscrape.SearchResult + string) :=
  caoscrape.Replied 200
    (inl [ {| caoscrape.DocumentLink := "/pdf/a.pdf" |};
           {| caoscrape.DocumentLink := "" |};
           {| caoscrape.DocumentLink := "pdf/b.pdf" |} ]).

Definition store_cao : Store :=
  {| Store_Name := "fileSearchStores/1"; Store_DisplayName := "cao-documents" |}.

Definition store_other : Store :=
  {| Store_Name := "fileSearchStores/2"; Store_DisplayName := "other" |}.

(** A generation that always fails. *)
Definition no_generation (model prompt : string) (stores : list string)
  : genai.GenerateContentResponse + string := inr "unavailable".

(** A service that lists two stores. *)
Definition service_of_two : Service :=
  {| modelName := "gemini-2.5-flash";
     FileSearchStores_List := inl [store_other; store_cao];
     GenerateContent := no_generation |}.

(** A service whose listing of the stores fails. *)
Definition service_without_listing : Service :=
  {| modelName := "gemini-2.5-flash";
     FileSearchStores_List := inr "unavailable";
     GenerateContent := no_generation |}.

Definition create_new (displayName : string) : Store + string :=
  inl {| Store_Name := "fileSearchStores/new"; Store_DisplayName := displayName |}.

(** The stores that the listing of the service returns; none when it
    fails. *)
Definition listed_stores (s : Service) : list Store :=
  match FileSearchStores_List s with
  | inl stores => stores
  | inr _ => []
  end.

Definition request_of (query storeName : string) : QueryRequest :=
  {| Query_ := query; StoreName := storeName; History := [] |}.

(** The value is a [map[string]interface{}]. *)
Definition is_map (v : any) : bool :=
  match v with Map _ => true | _ => false end.

(** The line that the querier prints for the source at 0-based position
    [i] of its list. *)
Definition source_line (i : nat) (source : SourceDocument) : string :=
  pretty (i + 1) +:+ ". " +:+ SourceDocument_FileName source +:+ newline.

(** The response of the candidates of two responses, one list behind the
    other. *)
Definition joined (resp1 resp2 : genai.GenerateContentResponse)
  : genai.GenerateContentResponse :=
  {| genai.Candidates := genai.Candidates resp1 ++ genai.Candidates resp2 |}.

(** A service that lists two stores and answers every generation with the
    response of three candidates. *)
Definition service_answering : Service :=
  {| modelName := "gemini-2.5-flash";
     FileSearchStores_List := inl [store_other; store_cao];
     GenerateContent := λ _ _ _, inl response_of_three |}.

(** A grounding support of three chunks of two files. *)
Definition support_of_three : GroundingSupport :=
  {| GroundingChunks := [file_chunk "fileA" "a1"; file_chunk "fileB" "b";
                         file_chunk "fileA" "a2"];
     WebSearchQueries := [] |}.

(** A GET that answers the second URL of the batch with status 404. *)
Definition Get_without_second (url : string) : caoscrape.Reply (string + string) :=
  if bool_decide (url = "https://x/") then caoscrape.Replied 404 (inl "")
  else caoscrape.Replied 200 (inl "%PDF").

(** * Properties *)

(** ** Display names of candidates *)

Section display_names.

Lemma list_ascii_of_string_app (s1 s2 : string) :
  list_ascii_of_string (s1 +:+ s2)
  = list_ascii_of_string s1 ++ list_ascii_of_string s2.
Proof. induction s1 as [|c s1 IH]; simpl; [done | by rewrite IH]. Qed.

Lemma string_of_list_ascii_nil (l : list ascii) :
  string_of_list_ascii l = "" → l = [].
Proof. by destruct l. Qed.

(** [filepath.Base] never returns the empty string: the first test of line
    81 never succeeds. *)
Lemma Base_nonempty (path : string) : gostd.Base path ≠ "".
Proof.
  unfold gostd.Base. repeat case_bool_decide; try done.
Qed.

(** A trailing slash does not change the base name of a non-empty path. *)
Lemma Base_trailing_slash (path : string) :
  path ≠ "" → gostd.Base (path +:+ "/") = gostd.Base path.
Proof.
  intros Hne. unfold gostd.Base.
  rewrite (bool_decide_eq_false_2 (path = "")) by done.
  rewrite bool_decide_eq_false_2 by (by destruct path).
  rewrite list_ascii_of_string_app, reverse_app. done.
Qed.

Lemma string_length_app (s1 s2 : string) :
  String.length (s1 +:+ s2) = String.length s1 + String.length s2.
Proof. induction s1 as [|c s1 IH]; simpl; [done | by rewrite IH]. Qed.

Lemma string_app_inj_r (a b c : string) : a +:+ c = b +:+ c → a = b.
Proof.
  revert b. induction a as [|x a IH]; intros [|y b] H; simpl in *.
  - done.
  - apply (f_equal String.length) in H. rewrite !string_length_app in H. simpl in H. lia.
  - apply (f_equal String.length) in H. rewrite !string_length_app in H. simpl in H. lia.
  - injection H as -> H. f_equal. by apply IH.
Qed.

Lemma Sprintf_document_inj : Inj (=) (=) Sprintf_document.
Proof.
  intros n m Heq. unfold Sprintf_document, gostd.fmt_d in Heq.
  apply (inj (String.app "document_")), string_app_inj_r in Heq.
  by apply (inj pretty) in Heq.
Qed.

End display_names.

(** The fallback name of line 82 at an explicit position. *)
Example fileName_of_empty_url : fileName_of 1 "" = "document_2.pdf".
Proof. reflexivity. Qed.

Example fileName_of_plain_url : fileName_of 0 "https://x/a.pdf" = "a.pdf".
Proof. reflexivity. Qed.

(** C4, as the spec states it, fails: the candidate at the second position
    of a batch whose source URL is https://x/ ends in a slash, and its
    display name is x, not document_2.pdf. *)
Lemma C4_trailing_slash_is_not_fallback :
  ends_with "/" "https://x/"
  ∧ fileName_of 1 "https://x/" = "x"
  ∧ fileName_of 1 "https://x/" ≠ "document_" +:+ pretty 2 +:+ ".pdf".
Proof. split; [by exists "https://x" | by split]. Qed.

(** C4 (amended): a candidate of a batch whose derived display name,
    [filepath.Base] of its source URL, is empty or a single dot receives
    the name document_<i>.pdf of its 1-based position i; two such
    candidates at different positions receive different names; and a
    non-empty source URL that is followed by a slash is named as without
    that slash, so that it receives no fallback name of its own. *)
Theorem C4_fallback_name (urls : list string) (i j : nat) (url_i url_j : string) :
  urls !! i = Some url_i →
  urls !! j = Some url_j →
  gostd.Base url_i = "" ∨ gostd.Base url_i = "." →
  gostd.Base url_j = "" ∨ gostd.Base url_j = "." →
  fileName_of i url_i = "document_" +:+ pretty (i + 1) +:+ ".pdf"
  ∧ (i ≠ j → fileName_of i url_i ≠ fileName_of j url_j)
  ∧ (∀ url, url ≠ "" → fileName_of i (url +:+ "/") = fileName_of i url).
Proof.
  intros _ _ Hi Hj.
  assert (Hname : ∀ k url, gostd.Base url = "" ∨ gostd.Base url = "." →
                           fileName_of k url = Sprintf_document (k + 1)).
  { intros k url [H|H]; unfold fileName_of; rewrite H; done. }
  split; [by rewrite Hname | split].
  - intros Hne. rewrite !Hname by done.
    intros Heq%Sprintf_document_inj. lia.
  - intros url Hurl. unfold fileName_of. by rewrite Base_trailing_slash.
Qed.

Lemma C4_fallback_name_witness :
  fileName_of 0 "" = "document_" +:+ pretty (0 + 1) +:+ ".pdf"
  ∧ (0 ≠ 2 → fileName_of 0 "" ≠ fileName_of 2 "a/.")
  ∧ (∀ url, url ≠ "" → fileName_of 0 (url +:+ "/") = fileName_of 0 url).
Proof.
  apply (C4_fallback_name [""; "https://x/a.pdf"; "a/."] 0 2 "" "a/.");
    [reflexivity | reflexivity | right; reflexivity | right; reflexivity].
Defined.

(** ** Composition of the prompt *)

Section prompt.

Lemma string_app_assoc (a b c : string) : (a +:+ b) +:+ c = a +:+ (b +:+ c).
Proof.
  induction a as [|x a IH]; [done |].
  change (String x ((a +:+ b) +:+ c) = String x (a +:+ (b +:+ c))).
  by rewrite IH.
Qed.

Lemma string_app_nil_r (a : string) : a +:+ "" = a.
Proof.
  induction a as [|x a IH]; [done |].
  change (String x (a +:+ "") = String x a). by rewrite IH.
Qed.

(** Without history the prompt is the question: a nil interface, an empty
    [[]interface{}] and an empty [[]HistoryMessage] alike. *)
Lemma fullPrompt_no_history (q : string) :
  fullPrompt q Nil = q ∧ fullPrompt q (Slice []) = q
  ∧ fullPrompt q (HistoryMessages []) = q.
Proof. done. Qed.

(** The type assertion of line 260 fails on a [[]HistoryMessage]: the
    prompt is the question, whatever the turns. *)
Lemma fullPrompt_HistoryMessages (q : string) (history : list HistoryMessage) :
  fullPrompt q (HistoryMessages history) = q.
Proof. done. Qed.

Lemma foldl_add_message (contextStr : string) (history : list HistoryMessage) :
  foldl add_message contextStr (untyped <$> history)
  = contextStr +:+ transcript history.
Proof.
  revert contextStr. induction history as [|msg history IH]; intros contextStr.
  - cbn. by rewrite string_app_nil_r.
  - cbn [fmap list_fmap foldl transcript foldr]. rewrite IH.
    change (add_message contextStr (untyped msg))
      with (contextStr +:+ transcript_line msg).
    by rewrite string_app_assoc.
Qed.

(** The path the function was written for: turns that arrive as a
    [[]interface{}] of maps are rendered under the preamble, one line a
    turn and in order, in front of the question. *)
Lemma fullPrompt_untyped (q : string) (history : list HistoryMessage) :
  history ≠ [] →
  fullPrompt q (Slice (untyped <$> history))
  = preamble +:+ transcript history +:+ (newline +:+ "Current question: ") +:+ q.
Proof.
  intros Hne. unfold fullPrompt.
  rewrite bool_decide_eq_true_2 by (destruct history; [done | cbn; lia]).
  rewrite foldl_add_message. unfold preamble.
  by rewrite !string_app_assoc.
Qed.

(** The handler passes the turns as a [[]HistoryMessage]: the reply does
    not depend on them. *)
Lemma Query_ignores_History (s : Service) (method : string) (req : QueryRequest)
    (history : list HistoryMessage) :
  Query s method (inl req)
  = Query s method (inl {| Query_ := Query_ req; StoreName := StoreName req;
                           History := history |}).
Proof. done. Qed.

End prompt.

(** C1 (the code departs from the claim): on the history of the turns
    (user, Q1) and (assistant, A1) and the question Q2, the handler's call
    of [PromptWithHistory] sends the prompt Q2 alone to the generation, and
    that prompt does not contain the line user: Q1. *)
Theorem C1_history_of_the_handler_is_dropped :
  let history := [ {| Role := "user"; Content := "Q1" |};
                   {| Role := "assistant"; Content := "A1" |} ] in
  (∀ s storeName,
     PromptWithHistory s "Q2" storeName (HistoryMessages history)
     = generate s "Q2" storeName)
  ∧ fullPrompt "Q2" (HistoryMessages history) = "Q2"
  ∧ ¬ substring_of "user: Q1" (fullPrompt "Q2" (HistoryMessages history)).
Proof.
  cbn zeta. split; [done | split; [done |]].
  intros (pre & post & H). rewrite fullPrompt_HistoryMessages in H.
  apply (f_equal String.length) in H. rewrite !string_length_app in H.
  cbn in H. lia.
Qed.

(** ** The sources of a response *)

Section sources.

Implicit Types (seenSources : gmap string bool) (chunks : list GroundingChunk).
Implicit Types (sources : list SourceDocument) (name : string).

Lemma seen_insert seenSources name name' :
  seen (<[name := true]> seenSources) name'
  = if decide (name = name') then true else seen seenSources name'.
Proof.
  unfold seen. destruct (decide (name = name')) as [->|Hne].
  - by rewrite lookup_insert_eq.
  - by rewrite lookup_insert_ne.
Qed.

Lemma file_names_snoc chunks chunk :
  file_names (chunks ++ [chunk])
  = file_names chunks ++ match File chunk with
                         | Some file => [FileName file]
                         | None => []
                         end.
Proof.
  unfold file_names. rewrite omap_app. f_equal. cbn. by destruct (File chunk).
Qed.

(** The loop computes the first occurrences: [pre] are the chunks passed so
    far, whose file names are the keys of [seenSources]. *)
Lemma collect_sources_first_occurrences chunks :
  ∀ pre seenSources sources,
    (∀ name, seen seenSources name = true ↔ name ∈ file_names pre) →
    collect_sources seenSources sources chunks
    = sources ++ omap id (imap (λ i, first_occurrence (pre ++ chunks) (length pre + i))
                               chunks).
Proof.
  induction chunks as [|chunk chunks IH]; intros pre seenSources sources Hseen.
  - cbn. by rewrite app_nil_r.
  - cbn [collect_sources imap omap].
    assert (Hrest : ∀ sources' seenSources',
      (∀ name, seen seenSources' name = true ↔ name ∈ file_names (pre ++ [chunk])) →
      collect_sources seenSources' sources' chunks
      = sources' ++ omap id (imap ((λ i, first_occurrence (pre ++ chunk :: chunks)
                                            (length pre + i)) ∘ S) chunks)).
    { intros sources' seenSources' H'. rewrite (IH (pre ++ [chunk]) _ _ H').
      f_equal. f_equal. apply imap_ext. intros i c _. cbn.
      rewrite <- app_assoc, length_app. cbn. f_equal. lia. }
    unfold first_occurrence at 1. rewrite Nat.add_0_r, take_app_length.
    destruct (File chunk) as [file|] eqn:Hfile; cbn.
    + destruct (seen seenSources (FileName file)) eqn:Hs; cbn.
      * rewrite bool_decide_eq_true_2 by (by apply Hseen). cbn.
        apply Hrest. intros name.
        rewrite file_names_snoc, Hfile, elem_of_app, list_elem_of_singleton.
        rewrite Hseen. split; [tauto |]. intros [?| ->]; [done | by apply Hseen].
      * rewrite bool_decide_eq_false_2
          by (rewrite <- Hseen; by rewrite Hs).
        cbn. rewrite Hrest.
        -- by rewrite <- app_assoc.
        -- intros name. rewrite file_names_snoc, Hfile, elem_of_app, seen_insert.
           rewrite list_elem_of_singleton, <- Hseen.
           destruct (decide (FileName file = name)); naive_solver.
    + apply Hrest. intros name. rewrite file_names_snoc, Hfile, app_nil_r.
      apply Hseen.
Qed.

Lemma seen_empty name : seen ∅ name = false.
Proof. unfold seen. by rewrite lookup_empty. Qed.

Lemma collect_sources_spec chunks :
  collect_sources ∅ [] chunks = first_occurrences chunks.
Proof.
  rewrite (collect_sources_first_occurrences chunks [] ∅ []).
  - done.
  - intros name. rewrite seen_empty. cbn. split; [done | by intros ?%elem_of_nil].
Qed.

(** The names collected: those appended before and the unseen file names
    of the chunks. *)
Lemma collect_sources_names chunks :
  ∀ seenSources sources name,
    name ∈ source_names (collect_sources seenSources sources chunks)
    ↔ name ∈ source_names sources
      ∨ (seen seenSources name = false ∧ name ∈ file_names chunks).
Proof.
  unfold source_names.
  induction chunks as [|chunk chunks IH]; intros seenSources sources name.
  - cbn. split; [tauto | intros [?|[_ ?%elem_of_nil]]; done].
  - cbn [collect_sources]. unfold file_names. cbn [omap list_omap].
    fold (file_names chunks).
    destruct (File chunk) as [file|] eqn:Hfile; cbn.
    + destruct (seen seenSources (FileName file)) eqn:Hs; cbn.
      * rewrite IH, elem_of_cons. split; [tauto |].
        intros [?|[? [->|?]]]; [tauto | congruence | tauto].
      * rewrite IH, fmap_app, elem_of_app, seen_insert, elem_of_cons. cbn.
        rewrite list_elem_of_singleton.
        destruct (decide (FileName file = name)) as [<-|Hne]; naive_solver.
    + apply IH.
Qed.

Lemma collect_sources_NoDup chunks :
  ∀ seenSources sources,
    NoDup (source_names sources) →
    (∀ name, name ∈ source_names sources → seen seenSources name = true) →
    NoDup (source_names (collect_sources seenSources sources chunks)).
Proof.
  unfold source_names.
  induction chunks as [|chunk chunks IH]; intros seenSources sources Hnd Hseen.
  - done.
  - cbn [collect_sources].
    destruct (File chunk) as [file|]; [|by apply IH].
    destruct (seen seenSources (FileName file)) eqn:Hs; cbn; [by apply IH |].
    apply IH.
    + rewrite fmap_app. apply NoDup_app. split_and!; [done | | cbn; apply NoDup_singleton].
      intros name Hin ->%list_elem_of_singleton. apply Hseen in Hin. cbn in Hin.
      congruence.
    + intros name. rewrite fmap_app, elem_of_app, seen_insert. cbn.
      destruct (decide (FileName file = name)); [done |].
      intros [?| ?%list_elem_of_singleton]; [by apply Hseen | done].
Qed.

End sources.

(** C5: the source list that the handler derives of the grounding chunks
    is the sequence of the first occurrences of the file names, in the
    order of the chunks: no file name twice, every file name of a chunk
    once; chunks of the files fileA, fileB, fileA, fileC give the sources
    fileA, fileB, fileC. *)
Theorem C5_sources_are_first_occurrences (gs : GroundingSupport) :
  unique_sources (Some gs) = first_occurrences (GroundingChunks gs)
  ∧ NoDup (source_names (unique_sources (Some gs)))
  ∧ (∀ name, name ∈ source_names (unique_sources (Some gs))
             ↔ name ∈ file_names (GroundingChunks gs))
  ∧ unique_sources
      (Some {| GroundingChunks := [file_chunk "fileA" "a1"; file_chunk "fileB" "b";
                                   file_chunk "fileA" "a2"; file_chunk "fileC" "c"];
               WebSearchQueries := [] |})
    = [source_of {| FileName := "fileA"; File_URI := "a1" |};
       source_of {| FileName := "fileB"; File_URI := "b" |};
       source_of {| FileName := "fileC"; File_URI := "c" |}].
Proof.
  cbn [unique_sources]. split_and!.
  - apply collect_sources_spec.
  - apply collect_sources_NoDup; [apply NoDup_nil_2 | by intros name ?%elem_of_nil].
  - intros name. rewrite collect_sources_names, seen_empty. cbn.
    split; [by intros [?%elem_of_nil | [_ ?]] | auto].
  - by vm_compute.
Qed.


(** ** The normalisation of a response *)

Section normalisation.

Lemma append_parts_spec (parts : list (option genai.Part)) :
  ∀ Parts0,
    append_parts Parts0 parts
    = if all_set parts
      then Some (Parts0 ++ filter (λ text, text ≠ "") (genai.Text <$> omap id parts))
      else None.
Proof.
  induction parts as [|[part|] parts IH]; intros Parts0; cbn.
  - by rewrite app_nil_r.
  - rewrite IH. fold (all_set parts). destruct (all_set parts); [|done].
    f_equal. case_bool_decide.
    + rewrite decide_True by done. by rewrite <- app_assoc.
    + by rewrite decide_False by tauto.
  - done.
Qed.

Lemma append_citations_spec (citations : list (option genai.Citation)) :
  ∀ Citations0,
    append_citations Citations0 citations
    = if all_set citations
      then Some (Citations0 ++ (convert_citation <$> omap id citations))
      else None.
Proof.
  induction citations as [|[citation|] citations IH]; intros Citations0; cbn.
  - by rewrite app_nil_r.
  - rewrite IH. fold (all_set citations). destruct (all_set citations); [|done].
    by rewrite <- app_assoc.
  - done.
Qed.

Lemma append_chunks_spec (chunks : list (option genai.GroundingChunk)) :
  ∀ chunks0,
    append_chunks chunks0 chunks
    = if all_set chunks
      then Some (chunks0 ++ (convert_chunk <$> omap id chunks))
      else None.
Proof.
  induction chunks as [|[chunk|] chunks IH]; intros chunks0; cbn.
  - by rewrite app_nil_r.
  - rewrite IH. fold (all_set chunks). destruct (all_set chunks); [|done].
    by rewrite <- app_assoc.
  - done.
Qed.

(** One round of the loop over the candidates. *)
Lemma parse_candidate_spec (response : PromptResponse) (cand : genai.Candidate) :
  parse_candidate response (Some cand)
  = if candidate_walkable (Some cand)
    then Some {| Parts := Parts response
                          ++ filter (λ text, text ≠ "") (texts_of cand);
                 Citations := Citations response
                              ++ (convert_citation <$> raw_citations_of cand);
                 GroundingSupport_ :=
                   match genai.GroundingMetadata_ cand with
                   | Some gm => Some (support_of gm)
                   | None => GroundingSupport_ response
                   end |}
    else None.
Proof.
  unfold parse_candidate, candidate_walkable, texts_of, raw_citations_of, support_of.
  cbn. destruct (genai.Content_ cand) as [content|]; cbn; [|done].
  rewrite append_parts_spec. destruct (all_set (genai.Parts content)); cbn; [|done].
  destruct (genai.CitationMetadata_ cand) as [cm|]; cbn.
  - case_bool_decide as Hlen.
    + rewrite append_citations_spec.
      destruct (all_set (genai.Citations cm)); cbn; [|done].
      destruct (genai.GroundingMetadata_ cand) as [gm|]; cbn; [|done].
      rewrite append_chunks_spec. by destruct (all_set (genai.GroundingChunks gm)).
    + destruct (genai.Citations cm); [|cbn in Hlen; lia]. cbn.
      rewrite app_nil_r.
      destruct (genai.GroundingMetadata_ cand) as [gm|]; cbn; [|done].
      rewrite append_chunks_spec. by destruct (all_set (genai.GroundingChunks gm)).
  - rewrite app_nil_r.
    destruct (genai.GroundingMetadata_ cand) as [gm|]; cbn; [|done].
    rewrite append_chunks_spec. by destruct (all_set (genai.GroundingChunks gm)).
Qed.

Lemma parse_candidates_spec (cands : list (option genai.Candidate)) :
  ∀ response,
    parse_candidates response cands
    = if forallb candidate_walkable cands
      then Some {| Parts := Parts response
                            ++ filter (λ text, text ≠ "") (omap id cands ≫= texts_of);
                   Citations := Citations response
                                ++ (convert_citation
                                      <$> (omap id cands ≫= raw_citations_of));
                   GroundingSupport_ :=
                     match last (omap genai.GroundingMetadata_ (omap id cands)) with
                     | Some gm => Some (support_of gm)
                     | None => GroundingSupport_ response
                     end |}
      else None.
Proof.
  induction cands as [|[cand|] cands IH]; intros response.
  - cbn. rewrite !app_nil_r. by destruct response.
  - cbn [parse_candidates forallb]. rewrite parse_candidate_spec.
    destruct (candidate_walkable (Some cand)); cbn [mbind option_bind andb]; [|done].
    rewrite IH. destruct (forallb candidate_walkable cands); [|done].
    cbn [omap list_omap id mbind list_bind Parts Citations GroundingSupport_].
    rewrite filter_app, fmap_app, <- !app_assoc. do 2 f_equal.
    destruct (genai.GroundingMetadata_ cand) as [gm|]; cbn [omap list_omap]; [|done].
    rewrite last_cons. by destruct (last _).
  - done.
Qed.

(** [parseResponse] returns exactly on the responses in which every pointer
    it follows is set, and then it returns the normalised response. *)
Lemma parseResponse_spec (resp : genai.GenerateContentResponse) :
  parseResponse resp = if walkable resp then Some (normalized resp) else None.
Proof.
  unfold parseResponse. rewrite parse_candidates_spec. fold (walkable resp).
  by destruct (walkable resp).
Qed.

End normalisation.


(** An empty text adds nothing to the answer: the answer is also the join
    of all texts. *)
Lemma concatenation_filter (texts : list string) :
  concatenation (filter (λ text, text ≠ "") texts) = concatenation texts.
Proof.
  unfold concatenation. induction texts as [|text texts IH]; [done |].
  destruct (decide (text = "")) as [->|Hne].
  - by rewrite filter_cons_False by tauto.
  - rewrite filter_cons_True by done. cbn [foldr]. by rewrite IH.
Qed.


(** [parseResponse] returns if and only if every pointer it follows is
    set. *)
Lemma parseResponse_returns_iff (resp : genai.GenerateContentResponse) :
  is_Some (parseResponse resp) ↔ walkable resp = true.
Proof.
  rewrite parseResponse_spec. destruct (walkable resp); [by eauto |].
  split; [by intros [? ?] | done].
Qed.

(** Absent citation metadata and absent grounding metadata are no failure:
    they leave no citation and no grounding support. *)
Example parseResponse_without_metadata :
  parseResponse
    {| genai.Candidates :=
         [ Some {| genai.Content_ := Some {| genai.Parts := [text_part "a"] |};
                   genai.CitationMetadata_ := None;
                   genai.GroundingMetadata_ := None |} ] |}
  = Some {| Parts := ["a"]; Citations := []; GroundingSupport_ := None |}.
Proof. reflexivity. Qed.



(** C8 (the code departs from the claim): on a response whose one candidate
    has no content, [parseResponse] does not return: it dereferences the
    nil content at line 296. *)
Theorem C8_candidate_without_content_panics :
  parseResponse {| genai.Candidates := [Some candidate_without_content] |} = None.
Proof. reflexivity. Qed.



Example answer_of_three :
  (build_response <$> parseResponse response_of_three) ≫= (λ r, Some (Answer r))
  = Some "abcd".
Proof. reflexivity. Qed.

(** C7, as the spec states it, fails: the raw chunk that carries web fields
    and retrieved-context fields of a non-empty URI is normalised to a chunk
    that is of the Web variant and of the File variant at once, also as
    the one chunk of a response. *)
Lemma C7_chunk_of_both_variants :
  is_web (convert_chunk chunk_of_both) = true
  ∧ is_file (convert_chunk chunk_of_both) = true
  ∧ parseResponse
      {| genai.Candidates :=
           [ Some {| genai.Content_ := Some {| genai.Parts := [] |};
                     genai.CitationMetadata_ := None;
                     genai.GroundingMetadata_ :=
                       Some {| genai.GroundingChunks := [Some chunk_of_both];
                               genai.WebSearchQueries := [] |} |} ] |}
    = Some {| Parts := []; Citations := [];
              GroundingSupport_ :=
                Some {| GroundingChunks :=
                          [ {| Web := Some {| Web_URI := "https://w"; Web_Title := "w" |};
                               File := Some {| FileName := "f.pdf";
                                               File_URI := "files/f" |} |} ];
                        WebSearchQueries := [] |} |}.
Proof. by split_and!. Qed.

(** C7 (amended): a normalised chunk is of the Web variant exactly when
    the raw chunk carries web fields and of the File variant exactly when
    the raw chunk carries retrieved-context fields of a non-empty URI, the
    one independently of the other: it is of both variants exactly when the
    raw chunk carries both, and a raw chunk that carries neither gives the
    empty chunk. *)
Theorem C7_variants_follow_the_raw_chunk (chunk : genai.GroundingChunk) :
  is_web (convert_chunk chunk) = carries_web chunk
  ∧ is_file (convert_chunk chunk) = carries_file chunk
  ∧ (carries_web chunk = false → carries_file chunk = false →
     convert_chunk chunk = {| Web := None; File := None |})
  ∧ (carries_web chunk && carries_file chunk = false →
     is_web (convert_chunk chunk) && is_file (convert_chunk chunk) = false).
Proof.
  assert (Hweb : is_web (convert_chunk chunk) = carries_web chunk).
  { unfold is_web, carries_web, convert_chunk.
    destruct (genai.Web chunk), (genai.RetrievedContext chunk) as [rc|];
      try destruct (bool_decide (genai.RetrievedContext_URI rc ≠ "")); reflexivity. }
  assert (Hfile : is_file (convert_chunk chunk) = carries_file chunk).
  { unfold is_file, carries_file, convert_chunk.
    destruct (genai.Web chunk), (genai.RetrievedContext chunk) as [rc|];
      try destruct (bool_decide (genai.RetrievedContext_URI rc ≠ "")); reflexivity. }
  split_and!; [done | done | | by rewrite Hweb, Hfile].
  unfold carries_web, carries_file, convert_chunk.
  destruct (genai.Web chunk), (genai.RetrievedContext chunk) as [rc|];
    try destruct (bool_decide (genai.RetrievedContext_URI rc ≠ ""));
    cbn; congruence.
Qed.

Lemma C7_variants_follow_the_raw_chunk_witness :
  carries_web chunk_of_neither = false
  ∧ carries_file chunk_of_neither = false
  ∧ is_web (convert_chunk chunk_of_neither) = carries_web chunk_of_neither
  ∧ is_file (convert_chunk chunk_of_neither) = carries_file chunk_of_neither
  ∧ convert_chunk chunk_of_neither = {| Web := None; File := None |}
  ∧ is_web (convert_chunk chunk_of_neither)
    && is_file (convert_chunk chunk_of_neither) = false.
Proof.
  destruct (C7_variants_follow_the_raw_chunk chunk_of_neither)
    as (Hweb & Hfile & Hneither & Hboth).
  split; [reflexivity | split; [reflexivity |]].
  split; [exact Hweb | split; [exact Hfile |]].
  split; [apply Hneither; reflexivity | apply Hboth; reflexivity].
Defined.

(** The chunks of the result are the normalised chunks of a raw response. *)
Lemma normalized_chunks (resp : genai.GenerateContentResponse) (gs : GroundingSupport) :
  GroundingSupport_ (normalized resp) = Some gs →
  ∃ gm, last (grounded resp) = Some gm
        ∧ GroundingChunks gs = convert_chunk <$> omap id (genai.GroundingChunks gm).
Proof.
  cbn. destruct (last (grounded resp)) as [gm|]; [|done].
  intros [= <-]. by exists gm.
Qed.



(** The chunk of the first candidate is in no source of the reply, while
    the texts of the three candidates are in its answer. *)
Example reply_of_three :
  build_response <$> parseResponse response_of_three
  = Some {| Answer := "abcd";
            QueryResponse_Sources :=
              [ {| SourceDocument_FileName := "fileB"; SourceDocument_URI := "b" |} ];
            QueryResponse_Citations :=
              [ {| StartIndex := 10; EndIndex := 25; Sources := [] |} ];
            QueryResponse_GroundingSupport :=
              Some {| GroundingChunks := [file_chunk "fileB" "b"];
                      WebSearchQueries := ["second"] |} |}.
Proof. reflexivity. Qed.

(** The handler on a request it accepts, when the store is found and the
    generation returns a response on which [parseResponse] returns. *)
Lemma Query_success (s : Service) (req : QueryRequest) (stores : list Store)
    (store : Store) (resp : genai.GenerateContentResponse) :
  Query_ req ≠ "" → StoreName req ≠ "" →
  FileSearchStores_List s = inl stores →
  find_store stores (StoreName req) = Returned store →
  GenerateContent s (modelName s) (Query_ req) [Store_Name store] = inl resp →
  walkable resp = true →
  Query s "POST" (inl req) = Success (build_response (normalized resp)).
Proof.
  intros Hq Hs Hl Hf Hg Hw. unfold Query.
  rewrite bool_decide_eq_false_2 by (intros H; by apply H).
  rewrite !bool_decide_eq_false_2 by done.
  unfold GetStoreByName, ListStores. rewrite Hl, Hf.
  unfold PromptWithHistory, generate. rewrite fullPrompt_HistoryMessages, Hg.
  by rewrite parseResponse_spec, Hw.
Qed.

(** ** Ingestion *)

Section ingestion.

Context (w : World) (existingFiles : gmap string bool).

(** What one round of the loop adds: events [tr] of this candidate alone,
    made only when its name is not known, and the documents [docs] of the
    uploads that the store accepted; the counter of the skipped goes up
    exactly for a known name. *)
Lemma upload_one_spec (i : nat) (url : string) (st : State) :
  ∃ tr docs,
    trace (upload_one w existingFiles i url st) = trace st ++ tr
    ∧ store (upload_one w existingFiles i url st) = store st ++ docs
    ∧ store_names docs = uploaded_names w tr
    ∧ uploadedCount (upload_one w existingFiles i url st)
      = uploadedCount st + length docs
    ∧ skippedCount (upload_one w existingFiles i url st)
      = skippedCount st
        + (if known existingFiles (fileName_of i url) then 1 else 0)
    ∧ (∀ e, e ∈ tr →
         known existingFiles (fileName_of i url) = false
         ∧ (e = Download i url ∨ e = Upload i (fileName_of i url) url)).
Proof.
  unfold upload_one.
  destruct (known existingFiles (fileName_of i url)) eqn:Hk.
  - exists [], []. cbn. rewrite !app_nil_r, Nat.add_0_r.
    split_and!; try done. by intros e ?%elem_of_nil.
  - destruct (download w i url) as [reader|].
    + destruct (upload_ok w i (fileName_of i url)) eqn:Hu.
      * exists [Download i url; Upload i (fileName_of i url) url],
               [filesearch.uploaded_document (fileName_of i url) url].
        cbn. rewrite Hu, Nat.add_0_r. split_and!; try done.
        intros e. rewrite !elem_of_cons. intros [->|[->|[]%elem_of_nil]]; auto.
      * exists [Download i url; Upload i (fileName_of i url) url], [].
        cbn. rewrite Hu, !app_nil_r, !Nat.add_0_r. split_and!; try done.
        intros e. rewrite !elem_of_cons. intros [->|[->|[]%elem_of_nil]]; auto.
    + exists [Download i url], []. cbn. rewrite !app_nil_r, !Nat.add_0_r.
      split_and!; try done.
      intros e. rewrite !elem_of_cons. intros [->|[]%elem_of_nil]; auto.
Qed.

(** The same for the loop, over the candidates from position [i] on. *)
Lemma upload_loop_spec (urls : list string) :
  ∀ i st,
    ∃ tr docs,
      trace (upload_loop w existingFiles i urls st) = trace st ++ tr
      ∧ store (upload_loop w existingFiles i urls st) = store st ++ docs
      ∧ store_names docs = uploaded_names w tr
      ∧ uploadedCount (upload_loop w existingFiles i urls st)
        = uploadedCount st + length docs
      ∧ skippedCount (upload_loop w existingFiles i urls st)
        = skippedCount st
          + length (filter (λ name, known existingFiles name = true)
                           (imap (λ k, fileName_of (i + k)) urls))
      ∧ (∀ e, e ∈ tr →
           ∃ k url, urls !! k = Some url
                    ∧ known existingFiles (fileName_of (i + k) url) = false
                    ∧ (e = Download (i + k) url
                       ∨ e = Upload (i + k) (fileName_of (i + k) url) url)).
Proof.
  induction urls as [|url urls IH]; intros i st.
  - exists [], []. cbn. rewrite !app_nil_r, !Nat.add_0_r.
    split_and!; try done. by intros e ?%elem_of_nil.
  - cbn [upload_loop].
    destruct (upload_one_spec i url st) as (tr1 & docs1 & Ht1 & Hs1 & Hn1 & Hu1 & Hk1 & He1).
    destruct (IH (S i) (upload_one w existingFiles i url st))
      as (tr2 & docs2 & Ht2 & Hs2 & Hn2 & Hu2 & Hk2 & He2).
    exists (tr1 ++ tr2), (docs1 ++ docs2).
    rewrite Ht2, Hs2, Hu2, Hk2, Ht1, Hs1, Hu1, Hk1, <- !app_assoc.
    split_and!; try done.
    + unfold store_names, uploaded_names in *. by rewrite fmap_app, omap_app, Hn1, Hn2.
    + rewrite length_app. lia.
    + rewrite imap_cons, Nat.add_0_r.
      rewrite (imap_ext ((λ k, fileName_of (i + k)) ∘ S) (λ k, fileName_of (S i + k)))
        by (intros k x _; cbn; f_equal; lia).
      destruct (known existingFiles (fileName_of i url)) eqn:Hk.
      * rewrite filter_cons_True by done. cbn. lia.
      * rewrite filter_cons_False by congruence. lia.
    + intros e [Hin|Hin]%elem_of_app.
      * destruct (He1 e Hin) as [Hk He]. exists 0, url. by rewrite Nat.add_0_r.
      * destruct (He2 e Hin) as (k & url' & Hl & Hk & He). exists (S k), url'.
        replace (i + S k) with (S i + k) by lia. done.
Qed.

(** When every candidate is known, the loop only counts. *)
Lemma upload_loop_all_known (urls : list string) :
  ∀ i st,
    (∀ k url, urls !! k = Some url →
              known existingFiles (fileName_of (i + k) url) = true) →
    upload_loop w existingFiles i urls st
    = {| uploadedCount := uploadedCount st;
         skippedCount := skippedCount st + length urls;
         store := store st;
         trace := trace st |}.
Proof.
  induction urls as [|url urls IH]; intros i st Hall.
  - cbn. rewrite Nat.add_0_r. by destruct st.
  - cbn [upload_loop]. rewrite IH.
    + unfold upload_one. specialize (Hall 0 url eq_refl).
      rewrite Nat.add_0_r in Hall. rewrite Hall. cbn. f_equal. lia.
    + intros k url' Hl. replace (S i + k) with (i + S k) by lia. by apply Hall.
Qed.

(** One round counts its candidate at most once, and a candidate that it
    counts is known or is in the store afterwards. *)
Lemma upload_one_progress (i : nat) (url : string) (st : State) :
  (uploadedCount (upload_one w existingFiles i url st)
   + skippedCount (upload_one w existingFiles i url st)
   = uploadedCount st + skippedCount st + 1
   ∧ (known existingFiles (fileName_of i url) = true
      ∨ fileName_of i url ∈ store_names (store (upload_one w existingFiles i url st))))
  ∨ uploadedCount (upload_one w existingFiles i url st)
    + skippedCount (upload_one w existingFiles i url st)
    = uploadedCount st + skippedCount st.
Proof.
  unfold upload_one.
  destruct (known existingFiles (fileName_of i url)); cbn; [left; split; [lia | by left] |].
  destruct (download w i url); [|by right].
  destruct (upload_ok w i (fileName_of i url)); cbn; [|by right].
  left. split; [lia | right].
  unfold store_names. rewrite fmap_app, elem_of_app. right. cbn. apply list_elem_of_here.
Qed.

Lemma upload_loop_counts_le (urls : list string) :
  ∀ i st,
    (uploadedCount (upload_loop w existingFiles i urls st)
     + skippedCount (upload_loop w existingFiles i urls st)
     ≤ uploadedCount st + skippedCount st + length urls)%nat.
Proof.
  induction urls as [|url urls IH]; intros i st; cbn [upload_loop length]; [lia |].
  specialize (IH (S i) (upload_one w existingFiles i url st)).
  destruct (upload_one_progress i url st) as [[H _]|H]; lia.
Qed.

Lemma upload_loop_store_grows (urls : list string) (i : nat) (st : State) (name : string) :
  name ∈ store_names (store st) →
  name ∈ store_names (store (upload_loop w existingFiles i urls st)).
Proof.
  destruct (upload_loop_spec urls i st) as (tr & docs & _ & -> & _).
  unfold store_names. rewrite fmap_app, elem_of_app. by left.
Qed.

(** A run in which the two counters add up to the number of the candidates
    has left no candidate behind: each one is known or in the store. *)
Lemma upload_loop_all_handled (urls : list string) :
  ∀ i st,
    uploadedCount (upload_loop w existingFiles i urls st)
    + skippedCount (upload_loop w existingFiles i urls st)
    = uploadedCount st + skippedCount st + length urls →
    ∀ k url, urls !! k = Some url →
      known existingFiles (fileName_of (i + k) url) = true
      ∨ fileName_of (i + k) url
        ∈ store_names (store (upload_loop w existingFiles i urls st)).
Proof.
  induction urls as [|url urls IH]; intros i st Hcount k url' Hl; [done |].
  cbn [upload_loop length] in *.
  pose proof (upload_loop_counts_le urls (S i) (upload_one w existingFiles i url st)) as Hle.
  destruct (upload_one_progress i url st) as [[Hone Hin]|Hone]; [|lia].
  destruct k as [|k].
  - injection Hl as <-. rewrite Nat.add_0_r.
    destruct Hin as [?|Hin]; [by left | right]. by apply upload_loop_store_grows.
  - replace (i + S k) with (S i + k) by lia. apply IH; [lia | done].
Qed.

End ingestion.

Lemma known_existingFiles_of (docs : list filesearch.Document) (name : string) :
  known (existingFiles_of docs) name = true
  ↔ name ∈ filesearch.DisplayName <$> docs.
Proof.
  unfold existingFiles_of.
  assert (H : ∀ m, known (foldl (λ m doc, <[filesearch.DisplayName doc := true]> m) m docs)
                         name = true
                   ↔ known m name = true ∨ name ∈ filesearch.DisplayName <$> docs).
  { induction docs as [|doc docs IH]; intros m; cbn.
    - split; [by left | by intros [?|[]%elem_of_nil]].
    - rewrite IH, elem_of_cons. change known with seen. rewrite seen_insert.
      destruct (decide (filesearch.DisplayName doc = name)); naive_solver. }
  rewrite H. change known with seen. rewrite seen_empty. naive_solver.
Qed.

(** The listing step returns display names of the store, and all of them
    when the listing call succeeds. *)
Lemma existing_names_spec (w : World) (s : remote.Store) :
  existing_names w s
  = if list_ok w then store_names (take (page_size w) s) else [].
Proof.
  unfold existing_names, existingDocs, filesearch.ListDocuments, store_names.
  destruct (list_ok w); [|done]. by rewrite <- list_fmap_compose.
Qed.

Lemma existing_names_in_store (w : World) (s : remote.Store) (name : string) :
  name ∈ existing_names w s → name ∈ store_names s.
Proof.
  rewrite existing_names_spec. destruct (list_ok w); [|by intros []%elem_of_nil].
  unfold store_names. intros (doc & -> & Hin)%list_elem_of_fmap.
  apply list_elem_of_fmap_2. by apply (subseteq_take (page_size w)).
Qed.

(** In a world without failing download and without failing upload the
    two counters of a run add up to the number of the candidates. *)
Lemma ingest_counts_without_failure (w : World) (s : remote.Store) (urls : list string) :
  (∀ i url, is_Some (download w i url)) →
  (∀ i name, upload_ok w i name = true) →
  uploadedCount (ingest w s urls) + skippedCount (ingest w s urls) = length urls.
Proof.
  intros Hd Hu. unfold ingest.
  generalize (existingFiles_of (existingDocs w s)). intros existingFiles.
  assert (H : ∀ i st,
    uploadedCount (upload_loop w existingFiles i urls st)
    + skippedCount (upload_loop w existingFiles i urls st)
    = uploadedCount st + skippedCount st + length urls).
  { induction urls as [|url urls IH]; intros i st; cbn [upload_loop length]; [lia |].
    rewrite IH. unfold upload_one.
    destruct (known existingFiles (fileName_of i url)); cbn; [lia |].
    destruct (Hd i url) as [reader ->]. rewrite Hu. cbn. lia. }
  rewrite H. cbn. lia.
Qed.

(** When a first run has left no candidate behind (its two counters add
    up to the number N of the candidates, as they do when no download and
    no upload fails), a second run of the same candidates against the store
    as the first run left it, whose listing call succeeds and whose page
    holds that whole store, uploads nothing and skips all N: it makes no
    download and no upload and leaves the store as it is. *)
Lemma second_run_skips_within_the_page (w1 w2 : World) (s : remote.Store)
    (urls : list string) :
  uploadedCount (ingest w1 s urls) + skippedCount (ingest w1 s urls) = length urls →
  list_ok w2 = true →
  (length (store (ingest w1 s urls)) ≤ page_size w2)%nat →
  ingest w2 (store (ingest w1 s urls)) urls
  = {| uploadedCount := 0;
       skippedCount := length urls;
       store := store (ingest w1 s urls);
       trace := [] |}.
Proof.
  intros Hcount Hlist Hpage. unfold ingest at 1.
  rewrite upload_loop_all_known; [done |].
  intros k url Hl. cbn. apply known_existingFiles_of.
  fold (existing_names w2 (store (ingest w1 s urls))).
  rewrite existing_names_spec, Hlist, take_ge by done.
  unfold ingest in *.
  destruct (upload_loop_all_handled w1 _ urls 0 _ Hcount k url Hl) as [Hk|Hin];
    [|done].
  apply upload_loop_store_grows. cbn [store].
  apply (existing_names_in_store w1). by apply known_existingFiles_of.
Qed.

(** C2 (the code departs from the claim): eleven candidates are ingested
    into the empty store without any failure, and the first run uploads all
    eleven. The second run, of the same candidates against the store as the
    first run left it, lists only the first page of ten documents: it skips
    ten candidates and downloads and uploads the eleventh again, whose
    display name the store already holds. *)
Theorem C2_second_run_uploads_beyond_the_first_page :
  uploadedCount (ingest world_ok [] batch_of_eleven) = 11
  ∧ skippedCount (ingest world_ok [] batch_of_eleven) = 0
  ∧ length (store (ingest world_ok [] batch_of_eleven)) = 11
  ∧ uploadedCount
      (ingest world_ok (store (ingest world_ok [] batch_of_eleven)) batch_of_eleven)
    = 1
  ∧ skippedCount
      (ingest world_ok (store (ingest world_ok [] batch_of_eleven)) batch_of_eleven)
    = 10
  ∧ trace
      (ingest world_ok (store (ingest world_ok [] batch_of_eleven)) batch_of_eleven)
    = [Download 10 "https://x/11.pdf"; Upload 10 "11.pdf" "https://x/11.pdf"]
  ∧ "11.pdf" ∈ store_names (store (ingest world_ok [] batch_of_eleven)).
Proof.
  split_and!; try (by vm_compute).
  vm_compute. do 10 apply list_elem_of_further. apply list_elem_of_here.
Qed.

(** The two runs of the batch against the empty store when nothing fails. *)
Example two_runs :
  ingest world_ok [] batch
  = {| uploadedCount := 3; skippedCount := 0;
       store := [ filesearch.uploaded_document "a.pdf" "https://x/a.pdf";
                  filesearch.uploaded_document "x" "https://x/";
                  filesearch.uploaded_document "document_3.pdf" "" ];
       trace := [ Download 0 "https://x/a.pdf"; Upload 0 "a.pdf" "https://x/a.pdf";
                  Download 1 "https://x/"; Upload 1 "x" "https://x/";
                  Download 2 ""; Upload 2 "document_3.pdf" "" ] |}
  ∧ uploadedCount (ingest world_ok (store (ingest world_ok [] batch)) batch) = 0
  ∧ skippedCount (ingest world_ok (store (ingest world_ok [] batch)) batch) = 3.
Proof. by vm_compute. Qed.

(** A candidate whose download failed in the first run is not in the store:
    the second run fetches and uploads it. *)
Example second_run_after_a_failure :
  uploadedCount (ingest world_second_download_fails [] batch) = 2
  ∧ skippedCount (ingest world_second_download_fails [] batch) = 0
  ∧ uploadedCount
      (ingest world_ok (store (ingest world_second_download_fails [] batch)) batch) = 1
  ∧ skippedCount
      (ingest world_ok (store (ingest world_second_download_fails [] batch)) batch) = 2.
Proof. by vm_compute. Qed.

(** C3: in every run, a display name of an upload, attempted or accepted,
    is none of the display names that the listing step returned; the store
    gains exactly the accepted uploads; a candidate whose display name the
    listing step returned causes no download and no upload; and the skipped
    are counted as the candidates of such names. *)
Theorem C3_uploads_disjoint_from_existing (w : World) (s : remote.Store)
    (urls : list string) :
  (∀ i name url, Upload i name url ∈ trace (ingest w s urls) →
                 name ∉ existing_names w s)
  ∧ (∀ name, name ∈ uploaded_names w (trace (ingest w s urls)) →
             name ∉ existing_names w s)
  ∧ store_names (store (ingest w s urls))
    = store_names s ++ uploaded_names w (trace (ingest w s urls))
  ∧ (∀ k url, urls !! k = Some url →
              fileName_of k url ∈ existing_names w s →
              ∀ e, e ∈ trace (ingest w s urls) → event_index e ≠ k)
  ∧ skippedCount (ingest w s urls)
    = length (filter (λ name, name ∈ existing_names w s) (candidate_names urls)).
Proof.
  unfold ingest.
  destruct (upload_loop_spec w (existingFiles_of (existingDocs w s)) urls 0
              {| uploadedCount := 0; skippedCount := 0; store := s; trace := [] |})
    as (tr & docs & -> & -> & Hn & _ & -> & He).
  cbn [trace store skippedCount app] in *.
  assert (Hupload : ∀ i name url, Upload i name url ∈ tr → name ∉ existing_names w s).
  { intros i name url Hin Hex. destruct (He _ Hin) as (k & url' & _ & Hk & [?|Heq]); [done |].
    injection Heq as -> -> ->. apply known_existingFiles_of in Hex.
    cbn in Hk. congruence. }
  split_and!.
  - done.
  - intros name Hin. unfold uploaded_names in Hin.
    apply list_elem_of_omap in Hin as (e & Hin & Hacc).
    destruct e as [|i name' url]; [done |]. cbn in Hacc.
    destruct (upload_ok w i name'); [|done]. injection Hacc as ->. by eapply Hupload.
  - unfold store_names in *. by rewrite fmap_app, Hn.
  - intros k url Hl Hex e Hin Hidx.
    destruct (He _ Hin) as (k' & url' & Hl' & Hk & Hev). cbn in Hk, Hev.
    assert (k' = k) as -> by (destruct Hev as [-> | ->]; done).
    assert (url' = url) as -> by congruence.
    apply known_existingFiles_of in Hex. congruence.
  - cbn. unfold candidate_names. f_equal. apply list_filter_iff.
    intros name. apply known_existingFiles_of.
Qed.

Lemma C3_uploads_disjoint_from_existing_witness :
  "x" ∈ uploaded_names world_ok (trace (ingest world_ok store_of_a batch))
  ∧ ("x" ∉ existing_names world_ok store_of_a)
  ∧ fileName_of 0 "https://x/a.pdf" ∈ existing_names world_ok store_of_a
  ∧ (∀ e, e ∈ trace (ingest world_ok store_of_a batch) → event_index e ≠ 0)
  ∧ skippedCount (ingest world_ok store_of_a batch) = 1.
Proof.
  destruct (C3_uploads_disjoint_from_existing world_ok store_of_a batch)
    as (_ & Hnames & _ & Hskip & Hcount).
  assert (Hx : "x" ∈ uploaded_names world_ok (trace (ingest world_ok store_of_a batch))).
  { vm_compute. apply list_elem_of_here. }
  assert (Ha : fileName_of 0 "https://x/a.pdf" ∈ existing_names world_ok store_of_a).
  { vm_compute. apply list_elem_of_here. }
  split_and!; [done | by apply Hnames | done | by apply (Hskip 0 "https://x/a.pdf") |].
  rewrite Hcount. reflexivity.
Defined.

(** * Further properties of the code *)

(** ** The ingestion loop *)

Section ingestion_more.

Context (w : World) (existingFiles : gmap string bool).

(** The documents that the loop adds are the uploads of candidates whose
    name is not known, and the counter of the uploads counts them. *)
Lemma upload_loop_docs (urls : list string) :
  ∀ i st,
    ∃ docs,
      store (upload_loop w existingFiles i urls st) = store st ++ docs
      ∧ uploadedCount (upload_loop w existingFiles i urls st)
        = uploadedCount st + length docs
      ∧ ∀ d, d ∈ docs →
          ∃ k url, urls !! k = Some url
                   ∧ known existingFiles (fileName_of (i + k) url) = false
                   ∧ d = filesearch.uploaded_document (fileName_of (i + k) url) url.
Proof.
  induction urls as [|url urls IH]; intros i st.
  - exists []. cbn. rewrite app_nil_r, Nat.add_0_r. split_and!; [done..|].
    by intros d []%elem_of_nil.
  - cbn [upload_loop].
    destruct (IH (S i) (upload_one w existingFiles i url st)) as (docs & -> & -> & Hd).
    assert (Hrest : ∀ d, d ∈ docs →
      ∃ k url', (url :: urls) !! k = Some url'
                ∧ known existingFiles (fileName_of (i + k) url') = false
                ∧ d = filesearch.uploaded_document (fileName_of (i + k) url') url').
    { intros d Hin. destruct (Hd d Hin) as (k & url' & ? & ? & ?).
      exists (S k), url'. by replace (i + S k) with (S i + k) by lia. }
    unfold upload_one.
    destruct (known existingFiles (fileName_of i url)) eqn:Hk; cbn.
    { exists docs. by split_and!. }
    destruct (download w i url); cbn; [|exists docs; by split_and!].
    destruct (upload_ok w i (fileName_of i url)); cbn; [|exists docs; by split_and!].
    exists (filesearch.uploaded_document (fileName_of i url) url :: docs).
    rewrite <- app_assoc. split_and!; [done | cbn; lia |].
    intros d [->|Hin]%elem_of_cons; [|by apply Hrest].
    exists 0, url. by rewrite Nat.add_0_r.
Qed.

(** A candidate whose name is not known is downloaded. *)
Lemma upload_loop_downloads (urls : list string) :
  ∀ i st k url,
    urls !! k = Some url →
    known existingFiles (fileName_of (i + k) url) = false →
    Download (i + k) url ∈ trace (upload_loop w existingFiles i urls st).
Proof.
  induction urls as [|url0 urls IH]; intros i st k url Hl Hk; [done |].
  cbn [upload_loop]. destruct k as [|k].
  - injection Hl as ->. rewrite Nat.add_0_r in *.
    destruct (upload_loop_spec w existingFiles urls (S i)
                (upload_one w existingFiles i url st)) as (tr & _ & -> & _).
    apply elem_of_app. left. unfold upload_one. rewrite Hk.
    destruct (download w i url); [destruct (upload_ok w i _) |]; cbn;
      apply elem_of_app; right; apply list_elem_of_here.
  - replace (i + S k) with (S i + k) in * by lia. by apply IH.
Qed.

(** A candidate whose name is not known, whose download succeeds and whose
    upload the store accepts, is in the store afterwards. *)
Lemma upload_loop_stores (urls : list string) :
  ∀ i st k url,
    urls !! k = Some url →
    known existingFiles (fileName_of (i + k) url) = false →
    is_Some (download w (i + k) url) →
    upload_ok w (i + k) (fileName_of (i + k) url) = true →
    filesearch.uploaded_document (fileName_of (i + k) url) url
    ∈ store (upload_loop w existingFiles i urls st).
Proof.
  induction urls as [|url0 urls IH]; intros i st k url Hl Hk Hd Hu; [done |].
  cbn [upload_loop]. destruct k as [|k].
  - injection Hl as ->. rewrite Nat.add_0_r in *.
    destruct (upload_loop_spec w existingFiles urls (S i)
                (upload_one w existingFiles i url st)) as (tr & docs & _ & -> & _).
    apply elem_of_app. left. unfold upload_one. rewrite Hk.
    destruct Hd as [reader ->]. rewrite Hu. cbn.
    apply elem_of_app. right. apply list_elem_of_here.
  - replace (i + S k) with (S i + k) in * by lia. by apply IH.
Qed.

(** Every candidate is skipped or downloaded, and only once. *)
Lemma upload_loop_downloads_and_skips (urls : list string) :
  ∀ i st,
    length (filter (λ e, is_download e = true)
                   (trace (upload_loop w existingFiles i urls st)))
    + skippedCount (upload_loop w existingFiles i urls st)
    = length (filter (λ e, is_download e = true) (trace st))
      + skippedCount st + length urls.
Proof.
  induction urls as [|url urls IH]; intros i st; cbn [upload_loop length]; [lia |].
  rewrite IH. unfold upload_one.
  destruct (known existingFiles (fileName_of i url)); cbn; [lia |].
  destruct (download w i url); [destruct (upload_ok w i _) |]; cbn;
    rewrite filter_app, length_app; cbn;
    rewrite ?(decide_True (P := true = true)), ?(decide_False (P := false = true))
      by done;
    cbn; lia.
Qed.

Lemma uploads_follow_downloads_app (tr1 tr2 : list Event) :
  uploads_follow_downloads tr1 → uploads_follow_downloads tr2 →
  uploads_follow_downloads (tr1 ++ tr2).
Proof.
  intros H1 H2 n i name url Hn.
  destruct (decide (n < length tr1)) as [Hlt|Hge].
  - rewrite lookup_app_l in Hn by done.
    destruct (H1 _ _ _ _ Hn) as (m & -> & Hm). exists m. split; [done |].
    rewrite lookup_app_l by lia. done.
  - rewrite lookup_app_r in Hn by lia.
    destruct (H2 _ _ _ _ Hn) as (m & Heq & Hm).
    exists (length tr1 + m). split; [lia |].
    rewrite lookup_app_r by lia. by replace (length tr1 + m - length tr1) with m by lia.
Qed.

Lemma upload_loop_uploads_follow_downloads (urls : list string) :
  ∀ i st,
    uploads_follow_downloads (trace st) →
    uploads_follow_downloads (trace (upload_loop w existingFiles i urls st)).
Proof.
  induction urls as [|url urls IH]; intros i st Hst; [done |].
  cbn [upload_loop]. apply IH. unfold upload_one.
  destruct (known existingFiles (fileName_of i url)); cbn; [done |].
  destruct (download w i url); [destruct (upload_ok w i _) |]; cbn;
    (apply uploads_follow_downloads_app; [done |]);
    intros [|[|n]] j name url' Hn; try done;
    injection Hn as <- <- <-; by exists 0.
Qed.

(** Without a failure the loop uploads, in order, the candidates whose name
    is not known. *)
Lemma upload_loop_without_failure (urls : list string) :
  failure_free w →
  ∀ i st,
    store_names (store (upload_loop w existingFiles i urls st))
    = store_names (store st)
      ++ filter (λ name, known existingFiles name ≠ true)
                (imap (λ k, fileName_of (i + k)) urls).
Proof.
  intros [Hd Hu]. induction urls as [|url urls IH]; intros i st.
  - cbn. by rewrite app_nil_r.
  - cbn [upload_loop]. rewrite IH, imap_cons, Nat.add_0_r.
    rewrite (imap_ext ((λ k, fileName_of (i + k)) ∘ S) (λ k, fileName_of (S i + k)))
      by (intros k x _; cbn; f_equal; lia).
    unfold upload_one.
    destruct (known existingFiles (fileName_of i url)) eqn:Hk.
    + by rewrite filter_cons_False by (rewrite Hk; intros H; by apply H).
    + rewrite filter_cons_True by (by rewrite Hk).
      destruct (Hd i url) as [reader ->]. rewrite Hu. cbn [store].
      unfold store_names. by rewrite fmap_app, <- app_assoc.
Qed.

(** A candidate whose name is not known and whose download succeeds is
    uploaded. *)
Lemma upload_loop_uploads (urls : list string) :
  ∀ i st k url,
    urls !! k = Some url →
    known existingFiles (fileName_of (i + k) url) = false →
    is_Some (download w (i + k) url) →
    Upload (i + k) (fileName_of (i + k) url) url
    ∈ trace (upload_loop w existingFiles i urls st).
Proof.
  induction urls as [|url0 urls IH]; intros i st k url Hl Hk Hd; [done |].
  cbn [upload_loop]. destruct k as [|k].
  - injection Hl as ->. rewrite Nat.add_0_r in *.
    destruct (upload_loop_spec w existingFiles urls (S i)
                (upload_one w existingFiles i url st)) as (tr & _ & -> & _).
    apply elem_of_app. left. unfold upload_one. rewrite Hk.
    destruct Hd as [reader ->].
    destruct (upload_ok w i _); cbn; apply elem_of_app; right;
      apply list_elem_of_further, list_elem_of_here.
  - replace (i + S k) with (S i + k) in * by lia. by apply IH.
Qed.

End ingestion_more.

Lemma not_known_existing (w : World) (s : remote.Store) (name : string) :
  known (existingFiles_of (existingDocs w s)) name = false
  ↔ name ∉ existing_names w s.
Proof.
  unfold existing_names. rewrite <- known_existingFiles_of.
  destruct (known _ name); split; [done | intros H; by destruct H | done | done].
Qed.

Lemma failure_free_world_ok : failure_free world_ok.
Proof. split; [by eauto | done]. Qed.

(** A run keeps the documents of the store, in order, and adds behind them
    one document for every upload it counts; each added document is the
    upload of a candidate whose display name the listing step did not
    return, named after that candidate and built of its URL. *)
Theorem ingest_keeps_and_extends_store (w : World) (s : remote.Store)
    (urls : list string) :
  ∃ docs,
    store (ingest w s urls) = s ++ docs
    ∧ uploadedCount (ingest w s urls) = length docs
    ∧ ∀ d, d ∈ docs →
        ∃ k url, urls !! k = Some url
                 ∧ (fileName_of k url ∉ existing_names w s)
                 ∧ d = filesearch.uploaded_document (fileName_of k url) url.
Proof.
  unfold ingest.
  destruct (upload_loop_docs w (existingFiles_of (existingDocs w s)) urls 0
              {| uploadedCount := 0; skippedCount := 0; store := s; trace := [] |})
    as (docs & Hs & Hu & Hd).
  exists docs. split_and!; [done | done |].
  intros d Hin. destruct (Hd d Hin) as (k & url & Hl & Hk & ->).
  exists k, url. split_and!; [done | by apply not_known_existing | done].
Qed.

(** In a run without failing download and without failing upload the
    display names added to the store are, in order and with repetitions,
    the display names of the candidates that the listing step did not
    return; the counter of the uploads is their number, and the two
    counters add up to the number of the candidates. *)
Theorem ingest_uploads_the_new_names (w : World) (s : remote.Store)
    (urls : list string) :
  failure_free w →
  store_names (store (ingest w s urls))
  = store_names s
    ++ filter (λ name, name ∉ existing_names w s) (candidate_names urls)
  ∧ uploadedCount (ingest w s urls)
    = length (filter (λ name, name ∉ existing_names w s) (candidate_names urls))
  ∧ uploadedCount (ingest w s urls) + skippedCount (ingest w s urls) = length urls.
Proof.
  intros Hw.
  assert (Hnames : store_names (store (ingest w s urls))
    = store_names s
      ++ filter (λ name, name ∉ existing_names w s) (candidate_names urls)).
  { unfold ingest. rewrite upload_loop_without_failure by done. cbn [store].
    f_equal. unfold candidate_names. apply list_filter_iff. intros name.
    rewrite <- not_known_existing. by destruct (known _ name). }
  split_and!; [done | | apply ingest_counts_without_failure; apply Hw].
  unfold ingest in *.
  destruct (upload_loop_docs w (existingFiles_of (existingDocs w s)) urls 0
              {| uploadedCount := 0; skippedCount := 0; store := s; trace := [] |})
    as (docs & Hs & Hu & _).
  cbn [store uploadedCount] in Hs, Hu. rewrite Hs in Hnames. unfold store_names in Hnames at 1.
  rewrite fmap_app in Hnames. apply app_inv_head in Hnames.
  rewrite Hu, <- Hnames. by rewrite length_fmap.
Qed.

Lemma ingest_uploads_the_new_names_witness :
  failure_free world_ok
  ∧ store_names (store (ingest world_ok store_of_a batch))
    = store_names store_of_a
      ++ filter (λ name, name ∉ existing_names world_ok store_of_a)
                (candidate_names batch)
  ∧ uploadedCount (ingest world_ok store_of_a batch)
    = length (filter (λ name, name ∉ existing_names world_ok store_of_a)
                     (candidate_names batch))
  ∧ uploadedCount (ingest world_ok store_of_a batch)
    + skippedCount (ingest world_ok store_of_a batch)
    = length batch.
Proof.
  split; [apply failure_free_world_ok |].
  apply (ingest_uploads_the_new_names world_ok store_of_a batch).
  apply failure_free_world_ok.
Defined.

(** The run of the witness: one candidate is skipped, two are uploaded. *)
Example names_added_to_store_of_a :
  store_names (store (ingest world_ok store_of_a batch))
  = ["a.pdf"; "x"; "document_3.pdf"]
  ∧ uploadedCount (ingest world_ok store_of_a batch) = 2
  ∧ skippedCount (ingest world_ok store_of_a batch) = 1.
Proof. by vm_compute. Qed.

(** The names of a batch are not deduplicated among each other: two
    candidates at different positions that have one display name, which the
    listing step did not return, are both uploaded under that name when
    their downloads succeed. *)
Theorem ingest_uploads_twins (w : World) (s : remote.Store) (urls : list string)
    (i j : nat) (url_i url_j : string) :
  i ≠ j →
  urls !! i = Some url_i →
  urls !! j = Some url_j →
  fileName_of i url_i = fileName_of j url_j →
  fileName_of i url_i ∉ existing_names w s →
  is_Some (download w i url_i) →
  is_Some (download w j url_j) →
  Upload i (fileName_of i url_i) url_i ∈ trace (ingest w s urls)
  ∧ Upload j (fileName_of i url_i) url_j ∈ trace (ingest w s urls).
Proof.
  intros _ Hi Hj Heq Hnew Hdi Hdj. unfold ingest. split.
  - apply (upload_loop_uploads w _ urls 0 _ i url_i); [done | | done].
    by apply not_known_existing.
  - rewrite Heq.
    apply (upload_loop_uploads w _ urls 0 _ j url_j); [done | | done].
    apply not_known_existing. cbn. by rewrite <- Heq.
Qed.

Lemma ingest_uploads_twins_witness :
  Upload 0 (fileName_of 0 "https://x/a.pdf") "https://x/a.pdf"
  ∈ trace (ingest world_ok [] batch_of_twins)
  ∧ Upload 1 (fileName_of 0 "https://x/a.pdf") "https://y/a.pdf"
    ∈ trace (ingest world_ok [] batch_of_twins).
Proof.
  apply (ingest_uploads_twins world_ok [] batch_of_twins 0 1
           "https://x/a.pdf" "https://y/a.pdf");
    [lia | reflexivity | reflexivity | reflexivity | | by eexists | by eexists].
  vm_compute. by intros ?%elem_of_nil.
Defined.

(** A candidate of a run is downloaded if and only if the listing step did
    not return its display name. *)
Theorem ingest_downloads_exactly_the_new (w : World) (s : remote.Store)
    (urls : list string) (k : nat) (url : string) :
  urls !! k = Some url →
  Download k url ∈ trace (ingest w s urls)
  ↔ fileName_of k url ∉ existing_names w s.
Proof.
  intros Hl. unfold ingest. split.
  - intros Hin.
    destruct (upload_loop_spec w (existingFiles_of (existingDocs w s)) urls 0
                {| uploadedCount := 0; skippedCount := 0; store := s; trace := [] |})
      as (tr & docs & Ht & _ & _ & _ & _ & He).
    rewrite Ht in Hin. cbn in Hin.
    destruct (He _ Hin) as (k' & url' & Hl' & Hk & [Heq|Heq]); [|done].
    cbn in Heq, Hk. injection Heq as -> ->. by apply not_known_existing.
  - intros Hnew. apply (upload_loop_downloads w _ urls 0 _ k url); [done |].
    by apply not_known_existing.
Qed.

Lemma ingest_downloads_exactly_the_new_witness :
  batch !! 1 = Some "https://x/"
  ∧ (Download 1 "https://x/" ∈ trace (ingest world_ok store_of_a batch)
     ↔ fileName_of 1 "https://x/" ∉ existing_names world_ok store_of_a).
Proof.
  split; [reflexivity |].
  apply (ingest_downloads_exactly_the_new world_ok store_of_a batch 1 "https://x/").
  reflexivity.
Defined.

(** When the listing call fails, the run skips nothing: it downloads every
    candidate, whatever the store holds. *)
Theorem ingest_without_listing (w : World) (s : remote.Store) (urls : list string) :
  list_ok w = false →
  skippedCount (ingest w s urls) = 0
  ∧ ∀ k url, urls !! k = Some url → Download k url ∈ trace (ingest w s urls).
Proof.
  intros Hlist.
  assert (Hnone : ∀ name, name ∉ existing_names w s).
  { intros name. rewrite existing_names_spec, Hlist. by intros ?%elem_of_nil. }
  split.
  - unfold ingest.
    destruct (upload_loop_spec w (existingFiles_of (existingDocs w s)) urls 0
                {| uploadedCount := 0; skippedCount := 0; store := s; trace := [] |})
      as (tr & docs & _ & _ & _ & _ & -> & _).
    cbn. destruct (filter _ _) as [|name names] eqn:Hf; [done |].
    assert (Hin : name ∈ name :: names) by apply list_elem_of_here.
    rewrite <- Hf in Hin. apply list_elem_of_filter in Hin as [Hk _].
    destruct (Hnone name). by apply known_existingFiles_of.
  - intros k url Hl. unfold ingest.
    apply (upload_loop_downloads w _ urls 0 _ k url); [done |].
    by apply not_known_existing.
Qed.

Lemma ingest_without_listing_witness :
  list_ok world_without_listing = false
  ∧ skippedCount (ingest world_without_listing store_of_a batch) = 0
  ∧ ∀ k url, batch !! k = Some url →
             Download k url ∈ trace (ingest world_without_listing store_of_a batch).
Proof.
  split; [reflexivity |].
  apply (ingest_without_listing world_without_listing store_of_a batch). reflexivity.
Defined.

(** Every candidate of a run is either skipped or downloaded, and
    downloaded once: the downloads of the trace and the skipped add up to
    the number of the candidates, whatever fails. *)
Theorem ingest_skips_or_downloads_each_once (w : World) (s : remote.Store)
    (urls : list string) :
  length (filter (λ e, is_download e = true) (trace (ingest w s urls)))
  + skippedCount (ingest w s urls)
  = length urls.
Proof. unfold ingest. by rewrite upload_loop_downloads_and_skips. Qed.

(** No upload without a download: in the trace of a run every upload
    stands directly behind the download of the same candidate. *)
Theorem ingest_uploads_follow_downloads (w : World) (s : remote.Store)
    (urls : list string) :
  uploads_follow_downloads (trace (ingest w s urls)).
Proof.
  unfold ingest. apply upload_loop_uploads_follow_downloads.
  by intros n i name url H.
Qed.

(** [ListDocuments] gives a document the metadata map in which every key
    has the value of its last entry. *)
Theorem convert_document_last_entry_wins (doc : remote.Document) (key : string) :
  filesearch.CustomMetadata (filesearch.convert_document doc) !! key
  = snd <$> last (entries_of key doc).
Proof.
  unfold filesearch.convert_document, entries_of. cbn.
  generalize (remote.CustomMetadata doc). intros entries.
  assert (H : ∀ m : gmap string string,
    foldl (λ metadata cm, <[cm.1 := cm.2]> metadata) m entries !! key
    = match last (filter (λ cm : string * string, cm.1 = key) entries) with
      | Some cm => Some cm.2
      | None => m !! key
      end).
  { induction entries as [|cm entries IH]; intros m; [done |].
    cbn [foldl]. rewrite IH.
    destruct (decide (cm.1 = key)) as [Heq|Hne].
    - rewrite filter_cons_True by done. rewrite last_cons.
      destruct (last (filter _ entries)); [done |].
      by rewrite <- Heq, lookup_insert_eq.
    - rewrite filter_cons_False by done.
      destruct (last (filter _ entries)); [done |].
      by rewrite lookup_insert_ne. }
  rewrite H. destruct (last _); [done | apply lookup_empty].
Qed.

(** What [UploadDocumentWithURL] writes, [ListDocuments] reads back: for
    a candidate that is new to the store, whose download succeeds and whose
    upload the store accepts, a later listing whose call succeeds and whose
    first page holds the whole store has a document of the display name of
    the candidate whose metadata map holds its URL under the key
    source_url, when that URL is not empty. *)
Theorem ingest_then_list (w w' : World) (s : remote.Store) (urls : list string)
    (k : nat) (url : string) :
  urls !! k = Some url →
  fileName_of k url ∉ existing_names w s →
  is_Some (download w k url) →
  upload_ok w k (fileName_of k url) = true →
  list_ok w' = true →
  (length (store (ingest w s urls)) ≤ page_size w')%nat →
  ∃ doc,
    doc ∈ existingDocs w' (store (ingest w s urls))
    ∧ filesearch.DisplayName doc = fileName_of k url
    ∧ (url ≠ "" → filesearch.CustomMetadata doc !! "source_url" = Some url).
Proof.
  intros Hl Hnew Hd Hu Hlist Hpage.
  exists (filesearch.convert_document
            (filesearch.uploaded_document (fileName_of k url) url)).
  split_and!.
  - unfold existingDocs, filesearch.ListDocuments. rewrite Hlist, take_ge by done.
    apply list_elem_of_fmap_2. unfold ingest.
    apply (upload_loop_stores w _ urls 0 _ k url); [done | | done | done].
    by apply not_known_existing.
  - done.
  - intros Hne. unfold filesearch.convert_document, filesearch.uploaded_document.
    cbn. rewrite bool_decide_eq_false_2 by done. cbn. apply lookup_insert_eq.
Qed.

Lemma ingest_then_list_witness :
  ∃ doc,
    doc ∈ existingDocs world_ok (store (ingest world_ok store_of_a batch))
    ∧ filesearch.DisplayName doc = fileName_of 1 "https://x/"
    ∧ ("https://x/" ≠ "" →
       filesearch.CustomMetadata doc !! "source_url" = Some "https://x/").
Proof.
  apply (ingest_then_list world_ok world_ok store_of_a batch 1 "https://x/");
    [reflexivity | | by eexists | reflexivity | reflexivity | vm_compute; lia].
  vm_compute. intros [?|[]%elem_of_nil]%elem_of_cons. done.
Defined.

Lemma ingest_uploads_follow_downloads_witness :
  ∃ m, 1 = S m
       ∧ trace (ingest world_ok [] batch) !! m = Some (Download 0 "https://x/a.pdf").
Proof.
  apply (ingest_uploads_follow_downloads world_ok [] batch 1 0 "a.pdf" "https://x/a.pdf").
  reflexivity.
Defined.

(** ** The display name of a candidate *)

Section names.

Lemma until_separator_app (l1 l2 : list ascii) :
  Forall (λ c, c ≠ "/"%char) l1 →
  gostd.until_separator (l1 ++ "/"%char :: l2) = l1.
Proof.
  induction 1 as [|c l1 Hc _ IH]; cbn.
  - done.
  - unfold gostd.IsPathSeparator. rewrite bool_decide_eq_false_2 by done.
    by rewrite IH.
Qed.

(** [filepath.Base] of a path that ends in a slash and a segment without
    slash is that segment. *)
Lemma Base_last_segment (p seg : string) :
  seg ≠ "" → slash_free seg → gostd.Base (p +:+ "/" +:+ seg) = seg.
Proof.
  intros Hne Hfree. unfold gostd.Base, slash_free in *.
  rewrite bool_decide_eq_false_2
    by (intros H; apply (f_equal String.length) in H;
        rewrite !string_length_app in H; cbn in H; lia).
  rewrite list_ascii_of_string_app.
  change (list_ascii_of_string ("/" +:+ seg))
    with ("/"%char :: list_ascii_of_string seg).
  rewrite reverse_app, reverse_cons, <- app_assoc. cbn [app].
  apply Forall_reverse in Hfree.
  destruct (reverse (list_ascii_of_string seg)) as [|c l] eqn:Hrev.
  { apply (f_equal reverse) in Hrev. rewrite reverse_involutive in Hrev.
    destruct seg; [done | discriminate]. }
  pose proof Hfree as [Hc Hl]%Forall_cons.
  assert (Hsep : gostd.IsPathSeparator c = false)
    by (by apply bool_decide_eq_false_2).
  cbn [app gostd.strip_leading]. rewrite Hsep.
  change (c :: l ++ "/"%char :: reverse (list_ascii_of_string p))
    with ((c :: l) ++ "/"%char :: reverse (list_ascii_of_string p)).
  rewrite until_separator_app by (by apply Forall_cons).
  rewrite <- Hrev, reverse_involutive, string_of_list_ascii_of_string.
  by rewrite bool_decide_eq_false_2.
Qed.

End names.

(** The display name of a candidate is never empty and never a single
    dot, whatever its position and its URL. *)
Theorem fileName_of_proper (i : nat) (url : string) :
  fileName_of i url ≠ "" ∧ fileName_of i url ≠ ".".
Proof.
  unfold fileName_of.
  destruct (bool_decide (gostd.Base url = "")) eqn:H1;
    [cbn; split; discriminate |].
  destruct (bool_decide (gostd.Base url = ".")) eqn:H2;
    [cbn; split; discriminate |].
  cbn. apply bool_decide_eq_false in H1, H2. done.
Qed.

(** A candidate whose URL ends in a slash and a segment that is not empty,
    not a single dot and without slash, is named by that segment. *)
Theorem fileName_of_last_segment (i : nat) (p seg : string) :
  seg ≠ "" → seg ≠ "." → slash_free seg →
  fileName_of i (p +:+ "/" +:+ seg) = seg.
Proof.
  intros Hne Hdot Hfree. unfold fileName_of.
  rewrite Base_last_segment by done.
  by rewrite !bool_decide_eq_false_2 by done.
Qed.

Lemma fileName_of_last_segment_witness :
  fileName_of 0 ("https://x/dir" +:+ "/" +:+ "a.pdf") = "a.pdf".
Proof.
  apply (fileName_of_last_segment 0 "https://x/dir" "a.pdf"); [done | done |].
  unfold slash_free. cbn. by repeat constructor.
Defined.

(** ** The document source *)

Section source.

Import caoscrape.

Lemma fullURL_nonempty_link (link : string) :
  link ≠ "" → starts_with (documentBase +:+ "/") (fullURL link).
Proof.
  intros Hne. unfold fullURL. destruct link as [|c link]; [done |].
  destruct (decide (c = "/"%char)) as [->|Hc].
  - rewrite bool_decide_eq_false_2 by (intros H; by apply H).
    exists link. by rewrite string_app_assoc.
  - rewrite bool_decide_eq_true_2 by done.
    exists (String c link). by rewrite string_app_assoc.
Qed.

Lemma foldl_add_result (results : list SearchResult) :
  ∀ documentURLs,
    foldl add_result documentURLs results
    = documentURLs
      ++ (fullURL <$> filter (λ link, link ≠ "") (DocumentLink <$> results)).
Proof.
  induction results as [|result results IH]; intros documentURLs.
  - cbn. by rewrite app_nil_r.
  - cbn [foldl fmap list_fmap]. rewrite IH. unfold add_result.
    destruct (decide (DocumentLink result = "")) as [Heq|Hne].
    + rewrite bool_decide_eq_false_2 by (intros H; by apply H).
      by rewrite filter_cons_False by (intros H; by apply H).
    + rewrite bool_decide_eq_true_2 by done.
      rewrite filter_cons_True by done. by rewrite <- app_assoc.
Qed.

Lemma Search_inl (Do : option Z → Reply (list SearchResult + string))
    (jc : option Z) (urls : list string) :
  Search Do jc = inl urls →
  ∃ results,
    Do jc = Replied 200 (inl results)
    ∧ urls = fullURL <$> filter (λ link, link ≠ "") (DocumentLink <$> results).
Proof.
  unfold Search. destruct (Do jc) as [cause|code [results|cause]]; [done | |].
  - destruct (decide (code = 200%Z)) as [->|Hne].
    + rewrite bool_decide_eq_false_2 by (intros H; by apply H).
      intros [= <-]. exists results. by rewrite foldl_add_result.
    + by rewrite bool_decide_eq_true_2.
  - by case_bool_decide.
Qed.

Lemma Search_starts_with (Do : option Z → Reply (list SearchResult + string))
    (jc : option Z) (urls : list string) (url : string) :
  Search Do jc = inl urls → url ∈ urls →
  starts_with (documentBase +:+ "/") url.
Proof.
  intros (results & _ & ->)%Search_inl (link & -> & Hin)%list_elem_of_fmap.
  apply list_elem_of_filter in Hin as [Hne _]. by apply fullURL_nonempty_link.
Qed.

End source.

(** [Search] returns URLs only for a response of status 200 whose body
    decodes; the URLs are then those of the results with a link, in the
    order of the results, and each begins with the document base and a
    slash. *)
Theorem Search_returns_document_urls
    (Do : option Z → caoscrape.Reply (list caoscrape.SearchResult + string))
    (jc : option Z) (urls : list string) :
  caoscrape.Search Do jc = inl urls →
  (∃ results,
     Do jc = caoscrape.Replied 200 (inl results)
     ∧ urls = caoscrape.fullURL
                <$> filter (λ link, link ≠ "") (caoscrape.DocumentLink <$> results))
  ∧ ∀ url, url ∈ urls → starts_with (caoscrape.documentBase +:+ "/") url.
Proof.
  intros H. split; [by apply Search_inl |].
  intros url. by apply (Search_starts_with Do jc).
Qed.

Lemma Search_returns_document_urls_witness :
  caoscrape.Search Do_three (Some 3180200%Z)
  = inl [ caoscrape.documentBase +:+ "/pdf/a.pdf";
          caoscrape.documentBase +:+ "/pdf/b.pdf" ]
  ∧ (∃ results,
       Do_three (Some 3180200%Z) = caoscrape.Replied 200 (inl results)
       ∧ [ caoscrape.documentBase +:+ "/pdf/a.pdf";
           caoscrape.documentBase +:+ "/pdf/b.pdf" ]
         = caoscrape.fullURL
             <$> filter (λ link, link ≠ "") (caoscrape.DocumentLink <$> results))
  ∧ ∀ url, url ∈ [ caoscrape.documentBase +:+ "/pdf/a.pdf";
                   caoscrape.documentBase +:+ "/pdf/b.pdf" ] →
           starts_with (caoscrape.documentBase +:+ "/") url.
Proof.
  split; [reflexivity |].
  apply (Search_returns_document_urls Do_three (Some 3180200%Z)). reflexivity.
Defined.

(** ** Stores *)

Section stores.

Lemma find_store_Returned (stores : list Store) (displayName : string) (store : Store) :
  find_store stores displayName = Returned store
  ↔ ∃ pre post,
      stores = pre ++ store :: post
      ∧ Store_DisplayName store = displayName
      ∧ Forall (λ other, Store_DisplayName other ≠ displayName) pre.
Proof.
  induction stores as [|first stores IH]; cbn.
  - split; [done | intros ([|? ?] & post & H & _); discriminate].
  - case_bool_decide as Hd.
    + split.
      * intros [= <-]. by exists [], stores.
      * intros ([|other pre] & post & Heq & Hname & Hpre).
        -- by injection Heq as ->.
        -- injection Heq as -> _. by apply Forall_cons in Hpre as [? _].
    + rewrite IH. split.
      * intros (pre & post & -> & Hname & Hpre). exists (first :: pre), post.
        split_and!; [done | done | by apply Forall_cons].
      * intros ([|other pre] & post & Heq & Hname & Hpre).
        -- injection Heq as -> _. done.
        -- injection Heq as -> ->. apply Forall_cons in Hpre as [_ Hpre].
           by exists pre, post.
Qed.

Lemma find_store_Failed (stores : list Store) (displayName : string) (err : error) :
  find_store stores displayName = Failed err
  ↔ err = StoreNotFound displayName
    ∧ Forall (λ other, Store_DisplayName other ≠ displayName) stores.
Proof.
  induction stores as [|first stores IH]; cbn.
  - split; [by intros [= <-] | by intros [-> _]].
  - case_bool_decide as Hd.
    + split; [done | intros [_ [? _]%Forall_cons]; done].
    + rewrite IH. split; intros [-> H]; split; try done.
      * by apply Forall_cons.
      * by apply Forall_cons in H as [_ ?].
Qed.

Lemma find_store_not_Panicked (stores : list Store) (displayName : string) :
  find_store stores displayName ≠ Panicked.
Proof. induction stores; cbn; [done | by case_bool_decide]. Qed.

End stores.

(** [GetStoreByName] on a listing that succeeds returns the first store of
    the display name, and fails with the error of the missing store exactly
    when no listed store has the name. *)
Theorem GetStoreByName_first_match (s : Service) (stores : list Store)
    (displayName : string) :
  FileSearchStores_List s = inl stores →
  (∀ store,
     GetStoreByName s displayName = Returned store
     ↔ ∃ pre post,
         stores = pre ++ store :: post
         ∧ Store_DisplayName store = displayName
         ∧ Forall (λ other, Store_DisplayName other ≠ displayName) pre)
  ∧ (GetStoreByName s displayName = Failed (StoreNotFound displayName)
     ↔ Forall (λ other, Store_DisplayName other ≠ displayName) stores).
Proof.
  intros Hl. unfold GetStoreByName, ListStores. rewrite Hl. split.
  - intros store. apply find_store_Returned.
  - rewrite find_store_Failed. naive_solver.
Qed.

Lemma GetStoreByName_first_match_witness :
  FileSearchStores_List service_of_two = inl [store_other; store_cao]
  ∧ GetStoreByName service_of_two "cao-documents" = Returned store_cao
  ∧ GetStoreByName service_of_two "missing" = Failed (StoreNotFound "missing").
Proof.
  destruct (GetStoreByName_first_match service_of_two [store_other; store_cao]
              "cao-documents" eq_refl) as [Hfound _].
  destruct (GetStoreByName_first_match service_of_two [store_other; store_cao]
              "missing" eq_refl) as [_ Hmissing].
  split_and!; [done | |].
  - apply Hfound. exists [store_other], []. split_and!; [done | done |].
    by repeat constructor.
  - apply Hmissing. by repeat constructor.
Defined.

(** The uploader takes the first listed store of its display name and then
    creates none; when the listing of the stores fails it creates a store,
    whatever stores exist. *)
Theorem get_or_create_spec (s : Service) (create : string → Store + string)
    (storeName : string) :
  (∀ stores store,
     FileSearchStores_List s = inl stores →
     store ∈ stores → Store_DisplayName store = storeName →
     ∃ found, cmd.get_or_create s create storeName = cmd.Ready found
              ∧ found ∈ stores ∧ Store_DisplayName found = storeName)
  ∧ (∀ cause,
       FileSearchStores_List s = inr cause →
       cmd.get_or_create s create storeName
       = match create storeName with
         | inl store => cmd.Ready store
         | inr cause' => cmd.CreateFailed cause'
         end).
Proof.
  unfold cmd.get_or_create, GetStoreByName, ListStores. split.
  - intros stores store -> Hin Hname.
    destruct (find_store stores storeName) as [found|err|] eqn:Hf.
    + apply find_store_Returned in Hf as (pre & post & -> & ? & _).
      exists found. split_and!; [done | | done].
      apply elem_of_app. right. apply list_elem_of_here.
    + apply find_store_Failed in Hf as [_ Hall].
      rewrite Forall_forall in Hall. by destruct (Hall store Hin).
    + by apply find_store_not_Panicked in Hf.
  - by intros cause ->.
Qed.

Lemma get_or_create_spec_witness :
  (∃ found, cmd.get_or_create service_of_two create_new "cao-documents"
            = cmd.Ready found
            ∧ found ∈ [store_other; store_cao]
            ∧ Store_DisplayName found = "cao-documents")
  ∧ cmd.get_or_create service_without_listing create_new "cao-documents"
    = match create_new "cao-documents" with
      | inl store => cmd.Ready store
      | inr cause' => cmd.CreateFailed cause'
      end.
Proof.
  split.
  - destruct (get_or_create_spec service_of_two create_new "cao-documents")
      as [Hfound _].
    apply (Hfound [store_other; store_cao] store_cao); [done | | done].
    apply list_elem_of_further, list_elem_of_here.
  - destruct (get_or_create_spec service_without_listing create_new "cao-documents")
      as [_ Hcreate].
    by apply (Hcreate "unavailable").
Defined.

(** When the uploader finishes, the store it used holds its former
    documents and behind them the uploaded ones, and the metadata of every
    uploaded document are the one entry source_url with a URL of the
    document base. *)
Theorem uploader_main_provenance (s : Service) (create : string → Store + string)
    (Do : option Z → caoscrape.Reply (list caoscrape.SearchResult + string))
    (w : World) (documents : string → remote.Store) (used : Store) (st : State) :
  cmd.uploader_main s create Do w documents = cmd.Finished used st →
  ∃ docs,
    store st = documents (Store_Name used) ++ docs
    ∧ uploadedCount st = length docs
    ∧ ∀ d, d ∈ docs →
        ∃ url, starts_with (caoscrape.documentBase +:+ "/") url
               ∧ remote.CustomMetadata d = [("source_url", url)].
Proof.
  unfold cmd.uploader_main.
  destruct (cmd.get_or_create s create "cao-documents") as [store| |]; [|done..].
  destruct (caoscrape.Search Do (Some 3180200%Z)) as [urls|err] eqn:Hsearch; [|done].
  intros [= <- <-]. unfold ingest.
  destruct (upload_loop_docs w (existingFiles_of (existingDocs w (documents (Store_Name store))))
              urls 0
              {| uploadedCount := 0; skippedCount := 0;
                 store := documents (Store_Name store); trace := [] |})
    as (docs & Hs & Hu & Hd).
  exists docs. split_and!; [done | done |].
  intros d Hin. destruct (Hd d Hin) as (k & url & Hl & _ & ->).
  exists url.
  assert (Hstart : starts_with (caoscrape.documentBase +:+ "/") url).
  { apply (Search_starts_with Do (Some 3180200%Z) urls); [done |].
    by eapply list_elem_of_lookup_2. }
  split; [done |]. cbn.
  rewrite bool_decide_eq_false_2; [done |].
  destruct Hstart as [rest ->]. done.
Qed.

Lemma uploader_main_provenance_witness :
  ∃ docs,
    store (ingest world_ok []
             [ caoscrape.documentBase +:+ "/pdf/a.pdf";
               caoscrape.documentBase +:+ "/pdf/b.pdf" ])
    = [] ++ docs
    ∧ uploadedCount (ingest world_ok []
                       [ caoscrape.documentBase +:+ "/pdf/a.pdf";
                         caoscrape.documentBase +:+ "/pdf/b.pdf" ])
      = length docs
    ∧ ∀ d, d ∈ docs →
        ∃ url, starts_with (caoscrape.documentBase +:+ "/") url
               ∧ remote.CustomMetadata d = [("source_url", url)].
Proof.
  apply (uploader_main_provenance service_of_two create_new Do_three world_ok
           (λ _, []) store_cao).
  reflexivity.
Defined.

(** ** The handler of a query *)

(** A request of another method than POST, or without query or without
    store name, is answered before any call of the service: the reply is
    the refusal of the method or an error of status 400, the same for every
    service. *)
Theorem Query_rejects_before_the_service (s s' : Service) (method : string)
    (req : QueryRequest) :
  method ≠ "POST" ∨ Query_ req = "" ∨ StoreName req = "" →
  Query s method (inl req) = Query s' method (inl req)
  ∧ (Query s method (inl req) = MethodNotAllowed
     ∨ ∃ message, Query s method (inl req) = Invalid 400 message).
Proof.
  intros H. unfold Query.
  destruct (decide (method = "POST")) as [->|Hm].
  - rewrite bool_decide_eq_false_2 by (intros Hn; by apply Hn).
    destruct H as [H|[H|H]]; [done | |].
    + rewrite (bool_decide_eq_true_2 _ H). split; [done | right; by eexists].
    + rewrite (bool_decide_eq_true_2 (StoreName req = "") H).
      case_bool_decide; (split; [done | right; by eexists]).
  - rewrite bool_decide_eq_true_2 by done. by split; [|left].
Qed.

Lemma Query_rejects_before_the_service_witness :
  Query service_of_two "POST" (inl (request_of "" "cao-documents"))
  = Query service_without_listing "POST" (inl (request_of "" "cao-documents"))
  ∧ (Query service_of_two "POST" (inl (request_of "" "cao-documents"))
     = MethodNotAllowed
     ∨ ∃ message, Query service_of_two "POST" (inl (request_of "" "cao-documents"))
                  = Invalid 400 message).
Proof.
  apply (Query_rejects_before_the_service service_of_two service_without_listing
           "POST" (request_of "" "cao-documents")).
  right. left. reflexivity.
Defined.

(** A valid request for a store name that no listed store has is answered
    with status 404, also when the listing of the stores itself fails, in
    which case the reply carries the error of the listing. *)
Theorem Query_store_lookup_failure (s : Service) (req : QueryRequest) :
  Query_ req ≠ "" → StoreName req ≠ "" →
  Forall (λ store, Store_DisplayName store ≠ StoreName req) (listed_stores s) →
  (∃ err, Query s "POST" (inl req) = Unsuccessful 404 "Store not found: " err)
  ∧ ∀ cause, FileSearchStores_List s = inr cause →
             Query s "POST" (inl req)
             = Unsuccessful 404 "Store not found: " (ListStoresFailed cause).
Proof.
  intros Hq Hs Hall. unfold Query, listed_stores in *.
  rewrite bool_decide_eq_false_2 by (intros Hn; by apply Hn).
  rewrite !bool_decide_eq_false_2 by done.
  unfold GetStoreByName, ListStores.
  destruct (FileSearchStores_List s) as [stores|cause].
  - split; [|done].
    assert (Hf : find_store stores (StoreName req)
                 = Failed (StoreNotFound (StoreName req)))
      by (by apply find_store_Failed).
    rewrite Hf. by eexists.
  - split; [by eexists | by intros ? [= <-]].
Qed.

Lemma Query_store_lookup_failure_witness :
  (∃ err, Query service_without_listing "POST" (inl (request_of "q" "cao-documents"))
          = Unsuccessful 404 "Store not found: " err)
  ∧ ∀ cause, FileSearchStores_List service_without_listing = inr cause →
             Query service_without_listing "POST" (inl (request_of "q" "cao-documents"))
             = Unsuccessful 404 "Store not found: " (ListStoresFailed cause).
Proof.
  apply (Query_store_lookup_failure service_without_listing
           (request_of "q" "cao-documents")); [done | done | constructor].
Defined.

(** The handler replies with success only to a POST request with query and
    store name whose store is listed, after a generation for the query
    itself as the prompt, with the resource name of the first listed store
    of that display name as the one store of the file search, that returned
    a response on which [parseResponse] returns; the reply is built of that
    response. *)
Theorem Query_success_only_if (s : Service) (method : string)
    (body : QueryRequest + string) (response : QueryResponse) :
  Query s method body = Success response →
  method = "POST"
  ∧ ∃ req stores store resp,
      body = inl req ∧ Query_ req ≠ "" ∧ StoreName req ≠ ""
      ∧ FileSearchStores_List s = inl stores
      ∧ find_store stores (StoreName req) = Returned store
      ∧ GenerateContent s (modelName s) (Query_ req) [Store_Name store] = inl resp
      ∧ walkable resp = true
      ∧ response = build_response (normalized resp).
Proof.
  unfold Query.
  destruct (decide (method = "POST")) as [->|Hm];
    [|by rewrite bool_decide_eq_true_2].
  rewrite bool_decide_eq_false_2 by (intros Hn; by apply Hn).
  destruct body as [req|err]; [|done].
  destruct (decide (Query_ req = "")) as [Hq|Hq];
    [by rewrite (bool_decide_eq_true_2 _ Hq) |].
  rewrite (bool_decide_eq_false_2 _ Hq).
  destruct (decide (StoreName req = "")) as [Hs|Hs];
    [by rewrite (bool_decide_eq_true_2 _ Hs) |].
  rewrite (bool_decide_eq_false_2 _ Hs).
  unfold GetStoreByName, ListStores.
  destruct (FileSearchStores_List s) as [stores|cause]; [|done].
  destruct (find_store stores (StoreName req)) as [store| |] eqn:Hf; [|done..].
  unfold PromptWithHistory, generate. rewrite fullPrompt_HistoryMessages.
  destruct (GenerateContent s (modelName s) (Query_ req) [Store_Name store])
    as [resp|cause] eqn:Hg; [|done].
  rewrite parseResponse_spec. destruct (walkable resp) eqn:Hw; [|done].
  intros [= <-]. split; [done |].
  exists req, stores, store, resp. by split_and!.
Qed.

Lemma Query_success_only_if_witness :
  Query service_answering "POST" (inl (request_of "q" "cao-documents"))
  = Success (build_response (normalized response_of_three))
  ∧ "POST" = "POST"
  ∧ ∃ req stores store resp,
      (inl (request_of "q" "cao-documents") : QueryRequest + string) = inl req
      ∧ Query_ req ≠ "" ∧ StoreName req ≠ ""
      ∧ FileSearchStores_List service_answering = inl stores
      ∧ find_store stores (StoreName req) = Returned store
      ∧ GenerateContent service_answering (modelName service_answering)
          (Query_ req) [Store_Name store] = inl resp
      ∧ walkable resp = true
      ∧ build_response (normalized response_of_three)
        = build_response (normalized resp).
Proof.
  split; [reflexivity |].
  apply (Query_success_only_if service_answering "POST"
           (inl (request_of "q" "cao-documents"))
           (build_response (normalized response_of_three))).
  reflexivity.
Defined.

(** ** More on the normalisation *)

(** [parseResponse] returns, without panic, exactly on the responses in
    which every candidate, every content, every part, every citation and
    every grounding chunk that it reaches is set. *)
Theorem parseResponse_returns_iff_walkable (resp : genai.GenerateContentResponse) :
  (walkable resp = true ↔ parseResponse resp = Some (normalized resp))
  ∧ (walkable resp = false ↔ parseResponse resp = None).
Proof.
  rewrite parseResponse_spec. by destruct (walkable resp).
Qed.

(** In a result of [parseResponse] no part is empty, every citation has at
    most one source, the citations are as many as the raw citation entries,
    and there is a grounding support exactly when some candidate carries
    grounding metadata. *)
Theorem parseResponse_result_invariants (resp : genai.GenerateContentResponse)
    (response : PromptResponse) :
  parseResponse resp = Some response →
  Forall (λ part, part ≠ "") (Parts response)
  ∧ Forall (λ c, (length (Sources c) ≤ 1)%nat) (Citations response)
  ∧ length (Citations response) = length (raw_citations resp)
  ∧ (GroundingSupport_ response = None ↔ grounded resp = []).
Proof.
  rewrite parseResponse_spec. destruct (walkable resp); [|done].
  intros [= <-]. cbn. split_and!.
  - apply Forall_forall. intros part Hin.
    by apply list_elem_of_filter in Hin as [? _].
  - apply Forall_fmap, Forall_forall. intros citation _. cbn.
    unfold convert_citation. case_bool_decide; cbn; lia.
  - by rewrite length_fmap.
  - rewrite <- last_None. by destruct (last (grounded resp)).
Qed.

Lemma parseResponse_result_invariants_witness :
  parseResponse response_of_three = Some (normalized response_of_three)
  ∧ Forall (λ part, part ≠ "") (Parts (normalized response_of_three))
  ∧ Forall (λ c, (length (Sources c) ≤ 1)%nat) (Citations (normalized response_of_three))
  ∧ length (Citations (normalized response_of_three))
    = length (raw_citations response_of_three)
  ∧ (GroundingSupport_ (normalized response_of_three) = None
     ↔ grounded response_of_three = []).
Proof.
  split; [reflexivity |].
  apply (parseResponse_result_invariants response_of_three). reflexivity.
Defined.

(** The normalisation of the candidates of two responses, one list behind
    the other: when [parseResponse] returns on both, it returns on the
    joined response, with the parts and the citations of the first in front
    of those of the second, and with the grounding support of the second,
    or that of the first when the second has none. *)
Theorem parseResponse_joined (resp1 resp2 : genai.GenerateContentResponse)
    (r1 r2 : PromptResponse) :
  parseResponse resp1 = Some r1 →
  parseResponse resp2 = Some r2 →
  parseResponse (joined resp1 resp2)
  = Some {| Parts := Parts r1 ++ Parts r2;
            Citations := Citations r1 ++ Citations r2;
            GroundingSupport_ :=
              match GroundingSupport_ r2 with
              | Some support => Some support
              | None => GroundingSupport_ r1
              end |}.
Proof.
  rewrite !parseResponse_spec.
  destruct (walkable resp1) eqn:H1; [|done]. destruct (walkable resp2) eqn:H2; [|done].
  intros [= <-] [= <-].
  assert (Hw : walkable (joined resp1 resp2) = true).
  { unfold walkable, joined in *. cbn. by rewrite forallb_app, H1, H2. }
  rewrite Hw. f_equal. unfold normalized, answer_parts, raw_citations, grounded,
    candidates, joined. cbn [genai.Candidates Parts Citations GroundingSupport_].
  rewrite !omap_app, !bind_app, filter_app, fmap_app, last_app.
  f_equal. by destruct (last (omap _ (omap id (genai.Candidates resp2)))).
Qed.

Lemma parseResponse_joined_witness :
  parseResponse response_of_three = Some (normalized response_of_three)
  ∧ parseResponse (joined response_of_three response_of_three)
    = Some {| Parts := Parts (normalized response_of_three)
                       ++ Parts (normalized response_of_three);
              Citations := Citations (normalized response_of_three)
                           ++ Citations (normalized response_of_three);
              GroundingSupport_ :=
                match GroundingSupport_ (normalized response_of_three) with
                | Some support => Some support
                | None => GroundingSupport_ (normalized response_of_three)
                end |}.
Proof.
  split; [reflexivity |].
  apply (parseResponse_joined response_of_three response_of_three); reflexivity.
Defined.

(** ** More on the prompt *)

(** The prompt ends with the question, whatever is passed as history. *)
Theorem fullPrompt_ends_with_question (q : string) (history : any) :
  ends_with q (fullPrompt q history).
Proof.
  unfold fullPrompt.
  destruct history as [|?|?|historySlice|?]; try (by exists "").
  case_bool_decide; [|by exists ""].
  eexists (_ +:+ (newline +:+ "Current question: ")).
  symmetry. apply string_app_assoc.
Qed.

(** The elements of a history that are no [map[string]interface{}] leave
    no line: a non-empty history of such elements alone gives the preamble
    and the question, without transcript. *)
Theorem fullPrompt_skips_other_elements (q : string) (historySlice : list any) :
  historySlice ≠ [] →
  Forall (λ msg, is_map msg = false) historySlice →
  fullPrompt q (Slice historySlice)
  = preamble +:+ (newline +:+ "Current question: ") +:+ q.
Proof.
  intros Hne Hall. unfold fullPrompt.
  rewrite bool_decide_eq_true_2 by (destruct historySlice; [done | cbn; lia]).
  assert (H : ∀ contextStr, foldl add_message contextStr historySlice = contextStr).
  { clear Hne. induction Hall as [|msg l Hmsg _ IH]; intros contextStr; [done |].
    cbn [foldl]. rewrite IH. by destruct msg. }
  by rewrite H.
Qed.

Lemma fullPrompt_skips_other_elements_witness :
  fullPrompt "Q2" (Slice [Str "user: Q1"; HistoryMessages [ {| Role := "user"; Content := "Q1" |} ]])
  = preamble +:+ (newline +:+ "Current question: ") +:+ "Q2".
Proof.
  apply (fullPrompt_skips_other_elements "Q2"); [done | by repeat constructor].
Defined.

(** ** The output of the querier *)

Section querier.

Lemma collect_sources_acc (chunks : list GroundingChunk) :
  ∀ seenSources sources,
    collect_sources seenSources sources chunks
    = sources ++ collect_sources seenSources [] chunks.
Proof.
  induction chunks as [|chunk chunks IH]; intros seenSources sources; cbn.
  - by rewrite app_nil_r.
  - destruct (File chunk) as [file|]; [|apply IH].
    destruct (seen seenSources (FileName file)); cbn; [apply IH |].
    rewrite IH, (IH _ [_]). by rewrite <- app_assoc.
Qed.

Lemma print_sources_spec (chunks : list GroundingChunk) :
  ∀ seenFiles sourceCount,
    cmd.print_sources seenFiles sourceCount chunks
    = imap (λ i, source_line (sourceCount + i)) (collect_sources seenFiles [] chunks).
Proof.
  induction chunks as [|chunk chunks IH]; intros seenFiles sourceCount; cbn.
  - done.
  - destruct (File chunk) as [file|]; [|apply IH].
    destruct (seen seenFiles (FileName file)); cbn; [apply IH |].
    rewrite collect_sources_acc. cbn [app]. rewrite imap_cons. f_equal.
    + unfold source_line, gostd.fmt_d. cbn. by rewrite Nat.add_0_r.
    + rewrite IH. apply imap_ext. intros i source _. cbn. f_equal. lia.
Qed.

End querier.

(** The querier prints, under a header with the number of the grounding
    chunks, one numbered line for each source that the handler of the
    server lists for the same grounding support, in the same order and
    numbered from 1 on. *)
Theorem querier_prints_the_sources_of_the_handler (gs : GroundingSupport) :
  GroundingChunks gs ≠ [] →
  cmd.print_grounding (Some gs)
  = (newline +:+ "=== Sources (" +:+ pretty (length (GroundingChunks gs))
             +:+ ") ===" +:+ newline)
    :: imap source_line (unique_sources (Some gs)).
Proof.
  intros Hne. unfold cmd.print_grounding.
  rewrite bool_decide_eq_true_2
    by (destruct (GroundingChunks gs); [done | cbn; lia]).
  f_equal. by rewrite print_sources_spec.
Qed.

Lemma querier_prints_the_sources_of_the_handler_witness :
  cmd.print_grounding (Some support_of_three)
  = (newline +:+ "=== Sources (" +:+ pretty (length (GroundingChunks support_of_three))
             +:+ ") ===" +:+ newline)
    :: imap source_line (unique_sources (Some support_of_three)).
Proof.
  apply (querier_prints_the_sources_of_the_handler support_of_three). done.
Defined.

Example querier_output_of_three :
  cmd.print_grounding (Some support_of_three)
  = [ newline +:+ "=== Sources (3) ===" +:+ newline;
      "1. fileA" +:+ newline;
      "2. fileB" +:+ newline ].
Proof. reflexivity. Qed.

(** ** Downloads through the document source *)

Lemma upload_loop_uploads_downloaded (w : World) (existingFiles : gmap string bool)
    (urls : list string) :
  ∀ i st,
    (∀ j name url, Upload j name url ∈ trace st → is_Some (download w j url)) →
    ∀ j name url,
      Upload j name url ∈ trace (upload_loop w existingFiles i urls st) →
      is_Some (download w j url).
Proof.
  induction urls as [|url0 urls IH]; intros i st Hst; [done |].
  cbn [upload_loop]. apply IH. unfold upload_one.
  destruct (known existingFiles (fileName_of i url0)); cbn; [done |].
  destruct (download w i url0) as [reader|] eqn:Hd;
    [destruct (upload_ok w i _) |]; cbn;
    intros j name url [Hin|Hin]%elem_of_app; try (by eapply Hst);
    repeat (apply elem_of_cons in Hin as [Hin|Hin]); try done;
    try (by apply elem_of_nil in Hin);
    injection Hin as -> -> ->; by rewrite Hd.
Qed.

(** In a run whose downloads go through [DownloadDocument], a candidate is
    uploaded only after a GET of its URL that answered with status 200 and
    a body that could be read: a candidate whose download fails is not
    uploaded. *)
Theorem ingest_uploads_only_downloaded (list_ok : bool) (page_size : nat)
    (Get : string → caoscrape.Reply (string + string))
    (upload_ok : nat → string → bool) (s : remote.Store) (urls : list string)
    (k : nat) (name url : string) :
  Upload k name url
  ∈ trace (ingest (cmd.world_of list_ok page_size Get upload_ok) s urls) →
  ∃ data, Get url = caoscrape.Replied 200 (inl data).
Proof.
  intros Hin. unfold ingest in Hin.
  apply upload_loop_uploads_downloaded in Hin; [|by intros ? ? ? ?%elem_of_nil].
  destruct Hin as [data Hd]. cbn in Hd. unfold caoscrape.DownloadDocument in Hd.
  destruct (Get url) as [cause|code [body|cause]]; [done | |].
  - destruct (decide (code = 200%Z)) as [->|Hne]; [by exists body |].
    by rewrite bool_decide_eq_true_2 in Hd.
  - by case_bool_decide.
Qed.

Lemma ingest_uploads_only_downloaded_witness :
  Upload 0 "a.pdf" "https://x/a.pdf"
  ∈ trace (ingest (cmd.world_of true 10 Get_without_second (λ _ _, true)) [] batch)
  ∧ ∃ data, Get_without_second "https://x/a.pdf" = caoscrape.Replied 200 (inl data).
Proof.
  assert (H : Upload 0 "a.pdf" "https://x/a.pdf"
              ∈ trace (ingest (cmd.world_of true 10 Get_without_second (λ _ _, true))
                         [] batch)).
  { vm_compute. apply list_elem_of_further, list_elem_of_here. }
  split; [exact H |].
  exact (ingest_uploads_only_downloaded true 10 Get_without_second (λ _ _, true)
           [] batch 0 "a.pdf" "https://x/a.pdf" H).
Defined.

Example run_without_second :
  uploaded_names (cmd.world_of true 10 Get_without_second (λ _ _, true))
    (trace (ingest (cmd.world_of true 10 Get_without_second (λ _ _, true)) [] batch))
  = ["a.pdf"; "document_3.pdf"].
Proof. by vm_compute. Qed.

Lemma ingest_keeps_and_extends_store_witness :
  ∃ docs,
    store (ingest world_ok store_of_a batch) = store_of_a ++ docs
    ∧ uploadedCount (ingest world_ok store_of_a batch) = length docs
    ∧ ∀ d, d ∈ docs →
        ∃ k url, batch !! k = Some url
                 ∧ (fileName_of k url ∉ existing_names world_ok store_of_a)
                 ∧ d = filesearch.uploaded_document (fileName_of k url) url.
Proof. apply (ingest_keeps_and_extends_store world_ok store_of_a batch). Defined.
